(** * company-data-scraper: company name -> website -> verified e-mail

    A shallow embedding of [scraping_url.py] and [get_email.py].

    - Python [str] values are modelled as [string]; a character that is
      not ASCII is spelled by characters above 127 (its UTF-8 bytes).
      [clean_name] reads such characters through the Unicode database
      ([str.lower], the [\b] of [re]), which is a parameter, [unicode].
      Elsewhere the program lowers text only to look for the target
      keywords, none of which has a letter that a non-ASCII character
      lowers to ([i] and [k] are the only such letters), or lowers what an
      ASCII pattern matched; there the ASCII lowering [lower] decides the
      same tests.
    - Exceptions are explicit: a computation returns [Ok v] or [Raised], and
      carries the list of events (HTTP requests, DNS queries, printed
      notices) it performed.
    - The network, the DNS resolver and the third-party parsers
      ([tldextract], [BeautifulSoup], [urljoin]) are parameters;
      [urljoin] is partial, since [urllib] raises [ValueError] on some
      references. *)

From Stdlib Require Import Ascii String NArith ZArith Bool Lia.
From stdpp Require Import base option list strings gmap sets.

#[local] Arguments String.append !_ _ : simpl nomatch.
#[local] Set Warnings "-clear-no-such-hyp".

(** ** Python string primitives *)

Module PyStr.
#[local] Open Scope char_scope.

Definition in_range (lo hi c : ascii) : bool :=
  (N_of_ascii lo <=? N_of_ascii c)%N && (N_of_ascii c <=? N_of_ascii hi)%N.

Definition is_upper (c : ascii) : bool := in_range "A" "Z" c.
Definition is_lower (c : ascii) : bool := in_range "a" "z" c.
Definition is_digit (c : ascii) : bool := in_range "0" "9" c.

(** [\w] on ASCII text. *)
Definition is_word (c : ascii) : bool :=
  is_lower c || is_upper c || is_digit c || Ascii.eqb c "_".

Definition lower_char (c : ascii) : ascii :=
  if is_upper c then ascii_of_N (N_of_ascii c + 32) else c.

(** [s.lower()] *)
Fixpoint lower (s : string) : string :=
  match s with
  | EmptyString => EmptyString
  | String c s' => String (lower_char c) (lower s')
  end.

(** [s.startswith(p)] *)
Fixpoint startswith (p s : string) : bool :=
  match p, s with
  | EmptyString, _ => true
  | String a p', String b s' => Ascii.eqb a b && startswith p' s'
  | String _ _, EmptyString => false
  end.

(** [sub in s] *)
Fixpoint contains (sub s : string) : bool :=
  startswith sub s ||
  match s with
  | EmptyString => false
  | String _ s' => contains sub s'
  end.

(** [s.endswith(suf)] *)
Fixpoint endswith (suf s : string) : bool :=
  String.eqb s suf ||
  match s with
  | EmptyString => false
  | String _ s' => endswith suf s'
  end.

(** [s.endswith(tuple)] *)
Definition endswith_any (sufs : list string) (s : string) : bool :=
  existsb (fun suf => endswith suf s) sufs.

(** [s.replace(old, new)] for a non-empty [old]: occurrences are replaced
    from left to right and do not overlap; [skip] counts the characters of
    the current occurrence that are still to be dropped. *)
Fixpoint replace_from (old new : string) (skip : nat) (s : string) : string :=
  match s with
  | EmptyString => EmptyString
  | String c s' =>
      match skip with
      | S n => replace_from old new n s'
      | O =>
          if startswith old s
          then new +:+ replace_from old new (String.length old - 1) s'
          else String c (replace_from old new 0 s')
      end
  end.

Definition replace (old new s : string) : string := replace_from old new 0 s.

(** [s.split(sep)] for a one-character separator. *)
Fixpoint split (sep : ascii) (s : string) : list string :=
  match s with
  | EmptyString => [EmptyString]
  | String c s' =>
      if Ascii.eqb c sep then EmptyString :: split sep s'
      else match split sep s' with
           | f :: fs => String c f :: fs
           | [] => [String c EmptyString]
           end
  end.

(** [s[:n]] *)
Definition take (n : nat) (s : string) : string := String.substring 0 n s.

End PyStr.

(** ** A backtracking matcher for the regular expressions of the program

    The fragment of Python's [re] the program uses: literals, character
    classes, greedy [class{min,}] repetition, ordered alternation,
    concatenation and the word boundary. Matching is by backtracking, as in
    [re]: alternatives are tried in order, repetitions take as much as they
    can and give back one character at a time. Every pattern of the program
    consumes at least one character. *)

Module Re.
Import PyStr.

Inductive regex : Type :=
| Lit (c : ascii)
| Cls (p : ascii -> bool)
| Rep (p : ascii -> bool) (min : nat)
| Alt (r1 r2 : regex)
| Cat (r1 r2 : regex)
| WordB.

(** A continuation receives the character before the current position and
    the text from the current position on, and answers with the text left
    after the whole match. *)
Definition cont : Type := option ascii -> string -> option string.

Definition is_word_at (c : option ascii) : bool :=
  match c with Some a => is_word a | None => false end.

Definition first_char (s : string) : option ascii :=
  match s with String c _ => Some c | EmptyString => None end.

Fixpoint rep_match (p : ascii -> bool) (min : nat) (k : cont)
    (prev : option ascii) (s : string) : option string :=
  let stop := match min with O => k prev s | S _ => None end in
  match s with
  | String c s' =>
      if p c then
        match rep_match p (Nat.pred min) k (Some c) s' with
        | Some rest => Some rest
        | None => stop
        end
      else stop
  | EmptyString => stop
  end.

Fixpoint re_match (r : regex) (k : cont) (prev : option ascii) (s : string)
    : option string :=
  match r with
  | Lit a =>
      match s with
      | String c s' => if Ascii.eqb c a then k (Some c) s' else None
      | EmptyString => None
      end
  | Cls p =>
      match s with
      | String c s' => if p c then k (Some c) s' else None
      | EmptyString => None
      end
  | Rep p min => rep_match p min k prev s
  | Alt r1 r2 =>
      match re_match r1 k prev s with
      | Some rest => Some rest
      | None => re_match r2 k prev s
      end
  | Cat r1 r2 => re_match r1 (re_match r2 k) prev s
  | WordB =>
      if xorb (is_word_at prev) (is_word_at (first_char s))
      then k prev s else None
  end.

(** The literal word [w] as a pattern. *)
Fixpoint word (w : string) : regex :=
  match w with
  | EmptyString => Rep (fun _ => false) 0
  | String c EmptyString => Lit c
  | String c w' => Cat (Lit c) (word w')
  end.

(** Length of the match of [r] that starts at the beginning of [s], when
    there is one; [prev] is the character before it. *)
Definition match_at (r : regex) (prev : option ascii) (s : string) : option nat :=
  match re_match r (fun _ rest => Some rest) prev s with
  | Some rest => Some (String.length s - String.length rest)
  | None => None
  end.

(** [re.findall(r, s)] for a pattern without groups: the matches from left
    to right, the search resuming where the last match ended. *)
Fixpoint findall_from (r : regex) (skip : nat) (prev : option ascii)
    (s : string) : list string :=
  match s with
  | EmptyString => []
  | String c s' =>
      match skip with
      | S n => findall_from r n (Some c) s'
      | O =>
          match match_at r prev s with
          | Some (S n) => take (S n) s :: findall_from r n (Some c) s'
          | _ => findall_from r 0 (Some c) s'
          end
      end
  end.

Definition findall (r : regex) (s : string) : list string :=
  findall_from r 0 None s.

(** [re.sub(r, repl, s)] for a constant replacement text. *)
Fixpoint sub_from (r : regex) (repl : string) (skip : nat)
    (prev : option ascii) (s : string) : string :=
  match s with
  | EmptyString => EmptyString
  | String c s' =>
      match skip with
      | S n => sub_from r repl n (Some c) s'
      | O =>
          match match_at r prev s with
          | Some (S n) => repl +:+ sub_from r repl n (Some c) s'
          | _ => String c (sub_from r repl 0 (Some c) s')
          end
      end
  end.

Definition sub (r : regex) (repl s : string) : string :=
  sub_from r repl 0 None s.

End Re.

(** ** Values, events and the exception monad *)

(** Python values as the program meets them: JSON documents decoded by
    [response.json()], and the cells of the input table. Of a number only
    its truth value is observed ([nan] is a non-zero number). A dictionary
    is kept as its items in document order; a later binding of a key
    overrides an earlier one. *)
#[warnings="-register-all"]
Inductive pyval : Type :=
| PNone
| PBool (b : bool)
| PNum (nonzero : bool)
| PStr (s : string)
| PList (items : list pyval)
| PDict (items : list (string * pyval)).

Inductive notice : Type :=
| ApiMatch (company_name : pyval) (domain : string)
| ApiNameMatch (company_name : pyval) (domain : string)
| SkippedBadMX (candidate : string).

Inductive event : Type :=
| HttpGet (url : string) (params : list (string * pyval))
| DnsResolveMX (domain : string)
| Printed (n : notice).

Inductive result (A : Type) : Type :=
| Ok (a : A)
| Raised.
Arguments Ok {A} a.
Arguments Raised {A}.

(** A computation: the events performed, then a value or an exception. *)
Definition M (A : Type) : Type := (list event * result A)%type.

Definition ret {A} (a : A) : M A := ([], Ok a).
Definition raise {A} : M A := ([], Raised).
Definition emit (e : event) : M unit := ([e], Ok tt).

Definition bind {A B} (m : M A) (f : A -> M B) : M B :=
  match m with
  | (t, Ok a) => let '(t', r) := f a in (t ++ t', r)
  | (t, Raised) => (t, Raised)
  end.

(** [try: body  except: handler] with a bare [except]. *)
Definition try_except {A} (body handler : M A) : M A :=
  match body with
  | (t, Ok a) => (t, Ok a)
  | (t, Raised) => let '(t', r) := handler in (t ++ t', r)
  end.

Notation "x <- m ;; k" := (bind m (fun x => k))
  (at level 100, m at next level, right associativity).
Notation "m ;;; k" := (bind m (fun _ => k))
  (at level 100, right associativity).

(** A [for] loop that threads one variable through its iterations. *)
Fixpoint for_each {A S} (l : list A) (s : S) (body : A -> S -> M S) : M S :=
  match l with
  | [] => ret s
  | x :: l' => s' <- body x s ;; for_each l' s' body
  end.

(** A step that performs no event. *)
Definition lift {A} (r : result A) : M A := ([], r).

Definition events {A} (m : M A) : list event := fst m.
Definition outcome {A} (m : M A) : result A := snd m.

(** Truth value of a Python value. *)
Definition truthy (v : pyval) : bool :=
  match v with
  | PNone => false
  | PBool b => b
  | PNum nz => nz
  | PStr s => negb (String.eqb s "")
  | PList l => negb (bool_decide (l = []))
  | PDict d => negb (bool_decide (d = []))
  end.

(** The value a dictionary binds to [key], if any. *)
Fixpoint dict_lookup (key : string) (d : list (string * pyval)) : option pyval :=
  match d with
  | [] => None
  | (k, v) :: d' =>
      match dict_lookup key d' with
      | Some w => Some w
      | None => if String.eqb k key then Some v else None
      end
  end.

(** [v.get(key, default)]: only a dictionary has the method. *)
Definition py_get (v : pyval) (key : string) (dflt : pyval) : M pyval :=
  match v with
  | PDict d => ret (default dflt (dict_lookup key d))
  | _ => raise
  end.

(** An HTTP response, as far as the program reads it: [status_code],
    [json()] ([None] when decoding raises), [text] and [url]. *)
Record response : Type := Response {
  status_code : Z;
  json : option pyval;
  text : string;
  url : string
}.

Import PyStr.

(** ** Unicode

    [str.lower] and the [\b] of [re] read a non-ASCII character through the
    Unicode database, which is a parameter here. [str_lower] is [str.lower].
    For [\b] all that matters of a non-ASCII character is whether it is
    alphanumeric: [word_view] replaces it by [_] when it is and by a space
    when it is not, two characters that stand for it faithfully in
    [clean_name], whose first pattern spells ASCII letters only and whose
    second pattern deletes all three alike. The four laws are facts of
    Python: on ASCII text [str.lower] is the ASCII lowering and the view
    changes nothing; lowering the ASCII letters first changes nothing;
    lowering creates no more ASCII letters and digits than the text has
    characters. *)

Definition is_ascii_char (c : ascii) : bool := (N_of_ascii c <? 128)%N.

Fixpoint is_ascii_text (s : string) : bool :=
  match s with
  | EmptyString => true
  | String c s' => is_ascii_char c && is_ascii_text s'
  end.

Fixpoint count_alnum (s : string) : nat :=
  match s with
  | EmptyString => 0
  | String c s' =>
      (if is_lower c || is_digit c then 1 else 0) + count_alnum s'
  end.

Record unicode : Type := Unicode {
  str_lower : string -> string;
  word_view : string -> string;
  str_lower_ascii : forall s, is_ascii_text s = true -> str_lower s = lower s;
  word_view_ascii : forall s, is_ascii_text s = true -> word_view s = s;
  str_lower_lower : forall s, str_lower (lower s) = str_lower s;
  lower_alnum_bound :
    forall s, count_alnum (word_view (str_lower s)) <= String.length s
}.

(** ** scraping_url.py *)

(** [\b(inc|llc|ltd|corp|limited|company|co)\b] *)
Definition LEGAL_SUFFIX : Re.regex :=
  Re.Cat Re.WordB
   (Re.Cat
     (Re.Alt (Re.word "inc") (Re.Alt (Re.word "llc") (Re.Alt (Re.word "ltd")
      (Re.Alt (Re.word "corp") (Re.Alt (Re.word "limited")
      (Re.Alt (Re.word "company") (Re.word "co")))))))
     Re.WordB).

(** [[^a-z0-9]] *)
Definition NON_ALNUM : Re.regex :=
  Re.Cls (fun c => negb (is_lower c || is_digit c)).

Definition clean_name (U : unicode) (name : pyval) : M string :=
  if negb (truthy name) then ret ""
  else match name with
       | PStr name =>
           let name := str_lower U name in
           let name := Re.sub LEGAL_SUFFIX "" (word_view U name) in
           let name := Re.sub NON_ALNUM "" name in
           ret name
       | _ => raise
       end.

(** [data[:3]], as the sequence the [for] loop iterates over. *)
Definition first_three (data : pyval) : M (list pyval) :=
  match data with
  | PList items => ret (firstn 3 items)
  | PStr s =>
      ret (map (fun c => PStr (String c EmptyString))
               (firstn 3 (String.list_ascii_of_string s)))
  | _ => raise
  end.

(** The [for item in data[:3]] loop of [_sync_clearbit]; [Some u] is
    [return u], [None] is the end of the loop. *)
Fixpoint match_items (U : unicode) (company_name : pyval)
    (clean_query : string) (items : list pyval) : M (option string) :=
  match items with
  | [] => ret None
  | item :: rest =>
      domain <- py_get item "domain" (PStr "") ;;
      name <- py_get item "name" (PStr "") ;;
      item_name <- clean_name U name ;;
      match domain with
      | PStr domain =>
          if contains clean_query (replace "." "" domain) then
            emit (Printed (ApiMatch company_name domain)) ;;;
            ret (Some ("https://" +:+ domain))
          else if contains clean_query item_name || contains item_name clean_query then
            emit (Printed (ApiNameMatch company_name domain)) ;;;
            ret (Some ("https://" +:+ domain))
          else match_items U company_name clean_query rest
      | _ => raise
      end
  end.

Definition SUGGEST_URL : string :=
  "https://autocomplete.clearbit.com/v1/companies/suggest".

(** [global_session.get(...)]: the answer of the network to the request, or
    an exception. *)
Definition session_get (net : option response) (url : string)
    (params : list (string * pyval)) : M response :=
  emit (HttpGet url params) ;;;
  match net with
  | Some r => ret r
  | None => raise
  end.

Definition response_json (r : response) : M pyval :=
  match json r with
  | Some v => ret v
  | None => raise
  end.

(** [api company_name] is what the network answers to the request for
    [company_name]. *)
Definition _sync_clearbit (U : unicode) (api : pyval -> option response)
    (company_name : pyval) : M (option string) :=
  returned <-
    try_except
      (response <- session_get (api company_name) SUGGEST_URL
                     [("query", company_name)] ;;
       if (status_code response =? 200)%Z then
         data <- response_json response ;;
         if truthy data then
           clean_query <- clean_name U company_name ;;
           items <- first_three data ;;
           match_items U company_name clean_query items
         else ret None
       else ret None)
      (ret None) ;;
  match returned with
  | Some u => ret (Some u)
  | None => ret None
  end.

Definition fetch_api (U : unicode) (api : pyval -> option response)
    (company_name : pyval) : M (option string) :=
  _sync_clearbit U api company_name.

(** [await asyncio.gather( *tasks )]: the values of the tasks in the order
    of the tasks, or the exception of the first task that raised. The
    interleaving of the events of concurrent tasks is not modelled. *)
Fixpoint gather {A} (tasks : list (M A)) : result (list A) :=
  match tasks with
  | [] => Ok []
  | t :: ts =>
      match outcome t, gather ts with
      | Ok a, Ok l => Ok (a :: l)
      | _, _ => Raised
      end
  end.

Definition truthy_url (u : option string) : bool :=
  match u with
  | Some s => negb (String.eqb s "")
  | None => false
  end.

(** [net i] is the network as the [i]-th task sees it. *)
Definition get_urls_api (U : unicode) (net : nat -> pyval -> option response)
    (company_list : list pyval) : result (list (option string)) :=
  let total := length company_list in
  let results : list (option string) := replicate total None in
  let tasks := imap (fun i name => fetch_api U (net i) name) company_list in
  match gather tasks with
  | Ok api_results =>
      Ok (foldl (fun results '(i, url) =>
                   if truthy_url url then <[i := url]> results else results)
                results (imap pair api_results))
  | Raised => Raised
  end.

(** ** get_email.py *)

(** [[a-zA-Z0-9._%+-]+@[a-zA-z0-9.-]+\.[a-zA-Z]{2,}]; the second class
    has the range [A-z] as the source writes it. *)
Definition EMAIL_REGEX : Re.regex :=
  Re.Cat (Re.Rep (fun c => is_lower c || is_upper c || is_digit c
                    || Ascii.eqb c "." || Ascii.eqb c "_" || Ascii.eqb c "%"
                    || Ascii.eqb c "+" || Ascii.eqb c "-") 1)
  (Re.Cat (Re.Lit "@")
  (Re.Cat (Re.Rep (fun c => is_lower c || in_range "A" "z" c || is_digit c
                    || Ascii.eqb c "." || Ascii.eqb c "-") 1)
  (Re.Cat (Re.Lit ".")
          (Re.Rep (fun c => is_lower c || is_upper c) 2)))).

Definition BAD_EXTENSIONS : list string :=
  [".png"; ".jpg"; ".jpeg"; ".gif"; ".css"; ".js"; ".svg"; ".webp"].

Definition TARGET_KEYWORDS : list string :=
  ["contact"; "contact us"; "support"; "about"; "about us"; "connect";
   "reach"; "help"].

(** What [dns.resolver.resolve(domain, 'MX')] does: it returns an answer
    with its records, or raises. *)
Inductive dns_error : Type := NXDOMAIN | NoAnswer | DnsTimeout | MalformedName.

Inductive dns_result : Type :=
| DnsAnswer (records : list string)
| DnsError (e : dns_error).

Definition resolve_mx (dns : string -> dns_result) (domain : string)
    : M (list string) :=
  emit (DnsResolveMX domain) ;;;
  match dns domain with
  | DnsAnswer records => ret records
  | DnsError _ => raise
  end.

(** [l[i]] *)
Definition py_index {A} (l : list A) (i : nat) : M A :=
  match l !! i with
  | Some x => ret x
  | None => raise
  end.

Definition check_mx_records (dns : string -> dns_result) (email : string)
    : M bool :=
  try_except
    (domain <- py_index (split "@" email) 1 ;;
     records <- resolve_mx dns domain ;;
     ret (negb (bool_decide (records = []))))
    (ret false).

(** [list(found)]: the elements of the set, each once, in an order the
    program does not control. *)
Record set_order : Type := SetOrder {
  list_of_set :> gset string -> list string;
  list_of_set_perm : forall X, list_of_set X ≡ₚ elements X
}.

(** [site_domain url] is [tldextract.extract(url).domain]. *)
Definition extract_valid_emails (site_domain : string -> string)
    (order : set_order) (html current_url : string) : M (list string) :=
  let found : gset string := ∅ in
  let html := replace " at " "@" (replace "(at)" "@" (replace " [at] " "@" html)) in
  let raw_emails := Re.findall EMAIL_REGEX html in
  let site_name := lower (site_domain current_url) in
  found <-
    for_each raw_emails found (fun email found =>
      let email := lower email in
      if endswith_any BAD_EXTENSIONS email then ret found
      else if 50 <? String.length email then ret found
      else
        email_domains <- py_index (split "@" email) 1 ;;
        if contains site_name email_domains
        then ret ({[ email ]} ∪ found)
        else ret found) ;;
  ret (order found).

(** An [<a href=...>] element: [a.text] and [a['href']]. *)
Record anchor : Type := Anchor {
  a_text : string;
  a_href : string
}.

Definition any_keyword (s : string) : bool :=
  existsb (fun key => contains key s) TARGET_KEYWORDS.

(** The [for a in soup.find_all('a', href=True)] loop of
    [_scrape_sync_email]; returning without the recursive call is [break].
    [urljoin base href] is [None] when [urllib]'s [urljoin] raises, as it
    does on an href whose host has an unmatched bracket; the exception
    leaves the loop. *)
Fixpoint scan_anchors (urljoin : string -> string -> option string)
    (final_url : string) (target_link : option string)
    (anchors : list anchor) : result (option string) :=
  match anchors with
  | [] => Ok target_link
  | a :: rest =>
      let text := lower (a_text a) in
      let href := lower (a_href a) in
      if any_keyword text || any_keyword href then
        match urljoin final_url (a_href a) with
        | Some link =>
            let target_link := Some link in
            if contains "contact" text || contains "contact" href
            then Ok target_link
            else scan_anchors urljoin final_url target_link rest
        | None => Raised
        end
      else scan_anchors urljoin final_url target_link rest
  end.

(** The third-party functions [_scrape_sync_email] relies on. *)
Record libs : Type := Libs {
  site_domain : string -> string;
  order : set_order;
  find_all_a_href : string -> list anchor;
  urljoin : string -> string -> option string
}.

(** The world of one scrape: [site_get n u] answers the [n]-th request of
    the session, for [u]; [dns] answers MX queries. *)
Record world : Type := World {
  site_get : nat -> string -> option response;
  dns : string -> dns_result
}.

(** A cell of the [Website] column: [None], a missing value, or a string. *)
Inductive url_arg : Type :=
| UrlNone
| UrlNaN
| UrlStr (u : string).

Definition absent_url (website_url : url_arg) : bool :=
  match website_url with
  | UrlNone => true
  | UrlNaN => true
  | UrlStr u => String.eqb u ""
  end.

Definition url_text (website_url : url_arg) : string :=
  match website_url with
  | UrlStr u => u
  | _ => ""
  end.

(** Lines 107-129: the candidates of the homepage, or else those of the
    one secondary page the links lead to. *)
Definition collect_candidates (L : libs) (W : world) (html final_url : string)
    : M (list string) :=
  emails <- extract_valid_emails (site_domain L) (order L) html final_url ;;
  if bool_decide (emails = []) then
    target_link <-
      lift (scan_anchors (urljoin L) final_url None (find_all_a_href L html)) ;;
    if truthy_url target_link then
      try_except
        (resp_contact <- session_get (site_get W 1 (default "" target_link))
                           (default "" target_link) [] ;;
         extract_valid_emails (site_domain L) (order L)
           (text resp_contact) final_url)
        (ret emails)
    else ret emails
  else ret emails.

(** In the body of the outer [try], [Some v] is [return v] and [None] is
    reaching its end. *)
Definition _scrape_sync_email (L : libs) (W : world) (website_url : url_arg)
    : M (option string) :=
  if absent_url website_url then ret None
  else
    returned <-
      try_except
        (fetched <-
           try_except
             (resp <- session_get (site_get W 0 (url_text website_url))
                        (url_text website_url) [] ;;
              ret (Some (text resp, url resp)))
             (ret None) ;;
         match fetched with
         | None => ret (Some None)
         | Some (html, final_url) =>
             emails <- collect_candidates L W html final_url ;;
             match emails with
             | candidate :: _ =>
                 valid <- check_mx_records (dns W) candidate ;;
                 if valid then ret (Some (Some candidate))
                 else emit (Printed (SkippedBadMX candidate)) ;;; ret (Some None)
             | [] => ret None
             end
         end)
        (ret None) ;;
    match returned with
    | Some v => ret v
    | None => ret None
    end.

(** ** A sample instance of the third-party functions

    [tldextract] on a small public-suffix list, for the examples below; the
    general statements quantify over the extractor. *)

Definition SAMPLE_SUFFIXES : list string :=
  ["com"; "io"; "org"; "net"; "uk"; "co.uk"].

(** Text up to the first character satisfying [stop]. *)
Fixpoint take_until (stop : ascii -> bool) (s : string) : string :=
  match s with
  | EmptyString => EmptyString
  | String c s' => if stop c then EmptyString else String c (take_until stop s')
  end.

(** Text after the first occurrence of [sep], or all of it without one. *)
Fixpoint after_first (sep s : string) (whole : string) : string :=
  match s with
  | EmptyString => whole
  | String _ s' =>
      if startswith sep s then String.substring (String.length sep) (String.length s) s
      else after_first sep s' whole
  end.

Definition host_of_url (u : string) : string :=
  let rest := after_first "://" u u in
  let netloc := take_until (fun c => Ascii.eqb c "/" || Ascii.eqb c "?"
                                     || Ascii.eqb c "#") rest in
  let hostport := List.last (split "@" netloc) "" in
  take_until (fun c => Ascii.eqb c ":") hostport.

Definition join_dots (labels : list string) : string :=
  match labels with
  | [] => ""
  | l :: ls => fold_left (fun acc x => acc +:+ "." +:+ x) ls l
  end.

(** The label to the left of the longest known suffix of [labels] (given
    in reverse); without a known suffix, the last label. *)
Fixpoint domain_label (n : nat) (rev_labels : list string) : option string :=
  match n with
  | O => None
  | S n' =>
      if bool_decide (join_dots (rev (firstn n rev_labels)) ∈ SAMPLE_SUFFIXES)
      then Some (nth n rev_labels "")
      else domain_label n' rev_labels
  end.

Definition sample_site_domain (u : string) : string :=
  let rev_labels := rev (split "." (lower (host_of_url u))) in
  match domain_label (length rev_labels) rev_labels with
  | Some d => d
  | None => nth 0 rev_labels ""
  end.

Definition sample_order : set_order :=
  SetOrder elements (fun X => Permutation_refl (elements X)).

(** [urljoin] on the forms of href the examples use: an absolute URL, a
    host-relative [//host/path], an absolute path and a relative path.
    [urllib] raises [ValueError] when the host part of the href has one
    square bracket without the other. *)
Fixpoint has_char (c : ascii) (s : string) : bool :=
  match s with
  | EmptyString => false
  | String a s' => Ascii.eqb a c || has_char c s'
  end.

Definition unmatched_bracket (netloc : string) : bool :=
  xorb (has_char "[" netloc) (has_char "]" netloc).

Definition netloc_of (after_slashes : string) : string :=
  take_until (fun c => Ascii.eqb c "/" || Ascii.eqb c "?" || Ascii.eqb c "#")
             after_slashes.

Definition sample_urljoin (base href : string) : option string :=
  let scheme := String.substring 0 (String.length base
                  - String.length (after_first "://" base base)) base in
  let rest := after_first "://" base base in
  let host := take_until (fun c => Ascii.eqb c "/") rest in
  if contains "://" href then
    if unmatched_bracket (netloc_of (after_first "://" href href)) then None
    else Some href
  else if startswith "//" href then
    if unmatched_bracket (netloc_of (after_first "//" href href)) then None
    else Some (String.substring 0 (String.length scheme - 2) scheme +:+ href)
  else if startswith "/" href then Some (scheme +:+ host +:+ href)
  else Some (scheme +:+ host +:+ "/" +:+ href).

(** The sample pages carry their addresses in the text and no links. *)
Definition sample_libs : libs :=
  Libs sample_site_domain sample_order (fun _ => []) sample_urljoin.

(** Sample answers of the network: the suggestion API, the network as
    three concurrent lookups see it (the second one fails), and a site
    whose homepage carries an address on a domain without MX records. *)
Definition acme_answer : response :=
  Response 200
    (Some (PList [PDict [("domain", PStr "acme.io")];
                  PDict [("domain", PStr "other.com")]]))
    "" "".

Definition sample_net (i : nat) (name : pyval) : option response :=
  match i with
  | 1 => None
  | _ => Some acme_answer
  end.

Definition sample_world : world :=
  World (fun n u =>
           match n with
           | 0 => Some (Response 200 None "mail info@acme.io" "https://acme.io/")
           | _ => None
           end)
        (fun _ => DnsError NXDOMAIN).

(** More sample answers: one whose first item has no readable domain, one
    with a fourth item, and the latter cut to three items. *)
Definition poisoned_answer : response :=
  Response 200
    (Some (PList [PDict [("name", PStr "Other"); ("domain", PNone)];
                  PDict [("name", PStr "Acme"); ("domain", PStr "acme.io")]]))
    "" "".

Definition long_answer : response :=
  Response 200
    (Some (PList [PDict [("name", PStr "Alpha"); ("domain", PStr "alpha.com")];
                  PDict [("name", PStr "Beta"); ("domain", PStr "beta.com")];
                  PDict [("name", PStr "Gamma"); ("domain", PStr "gamma.com")];
                  PDict [("name", PStr "Acme"); ("domain", PStr "acme.io")]]))
    "" "".

Definition cut_answer : response :=
  Response 200
    (Some (PList [PDict [("name", PStr "Alpha"); ("domain", PStr "alpha.com")];
                  PDict [("name", PStr "Beta"); ("domain", PStr "beta.com")];
                  PDict [("name", PStr "Gamma"); ("domain", PStr "gamma.com")]]))
    "" "".

(** ** The callers: [find_email_async] and [main] *)

(** The lines [find_email_async] prints. *)
Inductive console : Type :=
| FoundAndVerified (email : string)
| NoEmailFor (website_url : url_arg).

(** [find_email_async]: under the semaphore, the scrape in a worker
    thread, then one line on the console; the value is the scrape's. *)
Definition find_email_async (L : libs) (W : world) (website_url : url_arg)
    : M (option string) * list console :=
  let email := _scrape_sync_email L W website_url in
  (email,
   match outcome email with
   | Ok e => if truthy_url e then [FoundAndVerified (default "" e)]
             else [NoEmailFor website_url]
   | Raised => []
   end).

(** A cell of the [Website] column as the loop over the column reads it. *)
Definition website_cell (url : option string) : url_arg :=
  match url with
  | Some u => UrlStr u
  | None => UrlNone
  end.

(** [df[column] = values]: the values must be as many as the rows. *)
Definition set_column {A} (n_rows : nat) (values : list A) : result (list A) :=
  if length values =? n_rows then Ok values else Raised.

(** Lines 14-22 of [main]: from the names of the table to its rows with
    the [Website] and [Email] columns. [net i] and [worlds i] are the
    network as the [i]-th lookup and the [i]-th scrape see it. Reading and
    writing the CSV files are left out. *)
Definition main_rows (U : unicode) (net : nat -> pyval -> option response)
    (L : libs) (worlds : nat -> world) (names : list pyval)
    : result (list (pyval * option string * option string)) :=
  match get_urls_api U net names with
  | Raised => Raised
  | Ok urls =>
      match set_column (length names) urls with
      | Raised => Raised
      | Ok website =>
          let email_tasks :=
            imap (fun i url =>
                    fst (find_email_async L (worlds i) (website_cell url)))
                 website in
          match gather email_tasks with
          | Raised => Raised
          | Ok emails =>
              match set_column (length names) emails with
              | Raised => Raised
              | Ok email => Ok (zip (zip names website) email)
              end
          end
      end
  end.

(** A sample site whose homepage has no address and a contact link, and
    whose contact page has one. *)
Definition linked_libs : libs :=
  Libs sample_site_domain sample_order
       (fun _ => [Anchor "About" "/about"; Anchor "Contact" "/contact"])
       sample_urljoin.

(** The same site with an About link that [urljoin] rejects. *)
Definition broken_link_libs : libs :=
  Libs sample_site_domain sample_order
       (fun _ => [Anchor "About" "//[about"; Anchor "Contact" "/contact"])
       sample_urljoin.

Definition linked_world : world :=
  World (fun n u =>
           match n with
           | 0 => Some (Response 200 None "Welcome" "https://acme.io/")
           | _ => Some (Response 200 None "mail sales@acme.io"
                          "https://acme.io/contact")
           end)
        (fun _ => DnsAnswer ["mx.acme.io"]).

Definition sample_worlds (i : nat) : world :=
  World (site_get sample_world) (fun _ => DnsAnswer ["mx.acme.io"]).

(** A sample Unicode database, exact on ASCII text: it lowers the ASCII
    letters and reads every other character as part of a letter. *)
Fixpoint ascii_view (s : string) : string :=
  match s with
  | EmptyString => EmptyString
  | String c s' => String (if is_ascii_char c then c else "_"%char) (ascii_view s')
  end.

(** [Eco] with an acute accent on its capital, in UTF-8. *)
Definition eco_accented : string :=
  String (ascii_of_nat 195) (String (ascii_of_nat 137) "co").

(** ** Vocabulary of the statements *)

Fixpoint all_chars (p : ascii -> bool) (s : string) : bool :=
  match s with
  | EmptyString => true
  | String c s' => p c && all_chars p s'
  end.

(** The text has no [@]. *)
Definition no_at (s : string) : Prop :=
  all_chars (fun c => negb (Ascii.eqb c "@")) s = true.

(** The texts a pattern can match, whatever surrounds them. *)
Inductive lang : Re.regex -> string -> Prop :=
| lang_Lit c : lang (Re.Lit c) (String c EmptyString)
| lang_Cls (p : ascii -> bool) c : p c = true -> lang (Re.Cls p) (String c EmptyString)
| lang_Rep (p : ascii -> bool) min m :
    all_chars p m = true -> min <= String.length m -> lang (Re.Rep p min) m
| lang_AltL r1 r2 m : lang r1 m -> lang (Re.Alt r1 r2) m
| lang_AltR r1 r2 m : lang r2 m -> lang (Re.Alt r1 r2) m
| lang_Cat r1 r2 m1 m2 : lang r1 m1 -> lang r2 m2 -> lang (Re.Cat r1 r2) (m1 +:+ m2)
| lang_WordB : lang Re.WordB EmptyString.

(** [b] occurs in [a]: the meaning of Python's [b in a] on strings. *)
Definition substring_of (b a : string) : Prop :=
  exists pre post, a = pre +:+ b +:+ post.

(** A suggestion the matcher can read: its domain and its normalized
    display name. *)
Definition candidate (U : unicode) (item : pyval) : option (string * string) :=
  match item with
  | PDict d =>
      match default (PStr "") (dict_lookup "domain" d),
            outcome (clean_name U (default (PStr "") (dict_lookup "name" d))) with
      | PStr domain, Ok item_name => Some (domain, item_name)
      | _, _ => None
      end
  | _ => None
  end.

(** Rule 1: the normalized input name occurs in the domain without dots. *)
Definition rule1 (clean_query domain : string) : bool :=
  contains clean_query (replace "." "" domain).

(** Rule 2: the normalized input name occurs in the normalized display
    name, or the other way round. *)
Definition rule2 (clean_query item_name : string) : bool :=
  contains clean_query item_name || contains item_name clean_query.

(** The lookups the suggestion client answers with absence. *)
Definition failed_lookup (answer : option response) : Prop :=
  match answer with
  | None => True
  | Some r =>
      status_code r <> 200%Z \/ json r = None
      \/ exists data, json r = Some data /\ truthy data = false
  end.

(** The anchor mentions [contact]; the anchor mentions a target keyword. *)
Definition is_contact (a : anchor) : bool :=
  contains "contact" (lower (a_text a)) || contains "contact" (lower (a_href a)).

Definition is_target (a : anchor) : bool :=
  any_keyword (lower (a_text a)) || any_keyword (lower (a_href a)).

(** The matches of the address pattern in the de-obfuscated page. *)
Definition raw_emails (html : string) : list string :=
  Re.findall EMAIL_REGEX
    (replace " at " "@" (replace "(at)" "@" (replace " [at] " "@" html))).

(** The three tests of the extractor on a lowercased match. *)
Definition kept (site_name email : string) : bool :=
  negb (endswith_any BAD_EXTENSIONS email)
  && (String.length email <=? 50)
  && match split "@" email !! 1 with
     | Some email_domains => contains site_name email_domains
     | None => false
     end.


(** The text without its occurrences of [c]. *)
Fixpoint remove_char (c : ascii) (s : string) : string :=
  match s with
  | EmptyString => EmptyString
  | String a s' =>
      if Ascii.eqb a c then remove_char c s' else String a (remove_char c s')
  end.

(** The characters of the text that satisfy [p]. *)
Fixpoint filter_chars (p : ascii -> bool) (s : string) : string :=
  match s with
  | EmptyString => EmptyString
  | String a s' =>
      if p a then String a (filter_chars p s') else filter_chars p s'
  end.

(** A value that is a string. *)
Definition is_str (v : pyval) : bool :=
  match v with PStr _ => true | _ => false end.

(** The page after the three de-obfuscating replacements. *)
Definition deobfuscate (html : string) : string :=
  replace " at " "@" (replace "(at)" "@" (replace " [at] " "@" html)).

(** The list the extractor returns for a page and a URL. *)
Definition extracted (site_domain : string -> string) (order : set_order)
    (html current_url : string) : list string :=
  order (list_to_set
           (List.filter (kept (lower (site_domain current_url)))
                        (map lower (raw_emails html)))).

(** The HTTP requests and the DNS queries of a trace. *)
Definition http_requests (t : list event) : nat :=
  length (List.filter (fun e => match e with HttpGet _ _ => true | _ => false end) t).

Definition dns_queries (t : list event) : nat :=
  length (List.filter (fun e => match e with DnsResolveMX _ => true | _ => false end) t).

(** What the scraper does with its first candidate. *)
Definition validate_first (dns : string -> dns_result) (emails : list string)
    : list event * option string :=
  match emails with
  | [] => ([], None)
  | candidate :: _ =>
      match outcome (check_mx_records dns candidate) with
      | Ok true => (events (check_mx_records dns candidate), Some candidate)
      | _ => (events (check_mx_records dns candidate)
                ++ [Printed (SkippedBadMX candidate)], None)
      end
  end.

(** [urljoin] resolves the href of the anchor if it is a keyword anchor. *)
Definition resolves (urljoin : string -> string -> option string)
    (base : string) (a : anchor) : Prop :=
  is_target a = true -> is_Some (urljoin base (a_href a)).

(** The Link Selector as the specification words it: whenever an anchor
    mentions [contact], the first such anchor is selected, its href
    resolved against the base URL. *)
Definition contact_always_selected
    (urljoin : string -> string -> option string) : Prop :=
  forall base pre a post,
    is_contact a = true -> Forall (fun x => is_contact x = false) pre ->
    exists u, urljoin base (a_href a) = Some u
              /\ scan_anchors urljoin base None (pre ++ a :: post) = Ok (Some u).

(** *** Normalization, as the specification words it

    Lowercase; strip the legal-entity tokens where they stand as whole
    words; strip every character that is not a lowercase letter or a
    digit. A word is a longest run of word characters. *)

Definition LEGAL_WORDS : list string :=
  ["inc"; "llc"; "ltd"; "corp"; "limited"; "company"; "co"].







(** The word at the start of a text, and the text after it. *)
Fixpoint word_at (s : string) : string :=
  match s with
  | EmptyString => EmptyString
  | String c s' => if is_word c then String c (word_at s') else EmptyString
  end.

Fixpoint after_word (s : string) : string :=
  match s with
  | EmptyString => EmptyString
  | String c s' => if is_word c then after_word s' else s
  end.


(** * Properties *)

(** ** Strings *)

Lemma append_nil_r (s : string) : s +:+ "" = s.
Proof. induction s as [|c s IH]; simpl; [reflexivity | now f_equal]. Qed.

Lemma append_assoc (a b c : string) : (a +:+ b) +:+ c = a +:+ b +:+ c.
Proof. induction a as [|x a IH]; simpl; [reflexivity | now f_equal]. Qed.

Lemma length_append (a b : string) :
  String.length (a +:+ b) = String.length a + String.length b.
Proof. induction a as [|x a IH]; simpl; [reflexivity | now f_equal]. Qed.

Lemma take_append (a b : string) : take (String.length a) (a +:+ b) = a.
Proof.
  unfold take. induction a as [|x a IH]; simpl.
  - destruct b; reflexivity.
  - now rewrite IH.
Qed.

Lemma startswith_app (p s : string) : startswith p (p +:+ s) = true.
Proof.
  induction p as [|c p IH]; simpl; [reflexivity|].
  now rewrite Ascii.eqb_refl, IH.
Qed.

Lemma startswith_inv (p s : string) :
  startswith p s = true -> exists t, s = p +:+ t.
Proof.
  revert s. induction p as [|c p IH]; intros s H.
  - now exists s.
  - destruct s as [|b s]; simpl in H; [discriminate|].
    apply andb_true_iff in H as [Hc Hp]. apply Ascii.eqb_eq in Hc as ->.
    destruct (IH _ Hp) as [t ->]. now exists t.
Qed.

Lemma contains_startswith (sub s : string) :
  startswith sub s = true -> contains sub s = true.
Proof. intros H. destruct s; simpl; now rewrite H. Qed.

(** [contains] decides occurrence. *)
Lemma contains_iff (sub s : string) :
  contains sub s = true <-> substring_of sub s.
Proof.
  unfold substring_of. split.
  - induction s as [|c s IH]; simpl; intros H.
    + rewrite orb_false_r in H. destruct (startswith_inv _ _ H) as [t Ht].
      now exists "", t.
    + apply orb_true_iff in H as [H|H].
      * destruct (startswith_inv _ _ H) as [t Ht]. now exists "", t.
      * destruct (IH H) as (pre & post & ->). now exists (String c pre), post.
  - intros (pre & post & ->). induction pre as [|c pre IH]; simpl.
    + apply contains_startswith, startswith_app.
    + rewrite IH. apply orb_true_r.
Qed.

Lemma contains_empty (s : string) : contains "" s = true.
Proof. destruct s; reflexivity. Qed.

Lemma endswith_iff (suf s : string) :
  endswith suf s = true <-> exists pre, s = pre +:+ suf.
Proof.
  split.
  - induction s as [|c s IH]; cbn [endswith]; intros H.
    + rewrite orb_false_r in H. apply String.eqb_eq in H. now exists "".
    + apply orb_true_iff in H as [H|H].
      * apply String.eqb_eq in H. now exists "".
      * destruct (IH H) as [pre ->]. now exists (String c pre).
  - intros [pre ->]. induction pre as [|c pre IH].
    + destruct suf; cbn [endswith String.append];
        now rewrite String.eqb_refl.
    + cbn [endswith String.append]. rewrite IH. apply orb_true_r.
Qed.

Lemma lower_char_idem (c : ascii) : lower_char (lower_char c) = lower_char c.
Proof.
  destruct c as [[] [] [] [] [] [] [] []]; reflexivity.
Qed.

Lemma lower_idem (s : string) : lower (lower s) = lower s.
Proof.
  induction s as [|c s IH]; simpl; [reflexivity|].
  now rewrite lower_char_idem, IH.
Qed.

Lemma lower_app (a b : string) : lower (a +:+ b) = lower a +:+ lower b.
Proof. induction a as [|c a IH]; simpl; [reflexivity | now f_equal]. Qed.

Lemma lower_char_at (c : ascii) :
  Ascii.eqb (lower_char c) "@" = Ascii.eqb c "@".
Proof.
  destruct c as [[] [] [] [] [] [] [] []]; reflexivity.
Qed.

Lemma all_chars_app (p : ascii -> bool) (a b : string) :
  all_chars p (a +:+ b) = all_chars p a && all_chars p b.
Proof.
  induction a as [|c a IH]; simpl; [reflexivity|].
  now rewrite IH, andb_assoc.
Qed.

Lemma all_chars_impl (p q : ascii -> bool) (s : string) :
  (forall c, p c = true -> q c = true) ->
  all_chars p s = true -> all_chars q s = true.
Proof.
  intros Hpq. induction s as [|c s IH]; simpl; [reflexivity|].
  intros H. apply andb_true_iff in H as [Hc Hs].
  now rewrite (Hpq _ Hc), IH.
Qed.

Lemma no_at_lower (s : string) : no_at s -> no_at (lower s).
Proof.
  unfold no_at. induction s as [|c s IH]; simpl; [reflexivity|].
  intros H. apply andb_true_iff in H as [Hc Hs].
  now rewrite lower_char_at, Hc, IH.
Qed.

Lemma no_at_app (a b : string) : no_at a -> no_at b -> no_at (a +:+ b).
Proof. unfold no_at. intros Ha Hb. now rewrite all_chars_app, Ha, Hb. Qed.

(** Without an [@] the text is one field. *)
Lemma split_no_at (s : string) : no_at s -> split "@" s = [s].
Proof.
  unfold no_at. induction s as [|c s IH]; simpl; [reflexivity|].
  intros H. apply andb_true_iff in H as [Hc Hs].
  apply negb_true_iff in Hc. rewrite Hc, (IH Hs). reflexivity.
Qed.

(** The fields of [loc@rest] are [loc] and the fields of [rest]. *)
Lemma split_at_first (loc rest : string) :
  no_at loc -> split "@" (loc +:+ "@" +:+ rest) = loc :: split "@" rest.
Proof.
  change ("@" +:+ rest) with (String "@" rest).
  unfold no_at. induction loc as [|c loc IH]; simpl; [reflexivity|].
  intros H. apply andb_true_iff in H as [Hc Hs].
  apply negb_true_iff in Hc. rewrite Hc, (IH Hs). reflexivity.
Qed.

(** For an address with one [@], field 1 is everything after the [@]. *)
Lemma split_address (loc d : string) :
  no_at loc -> no_at d -> split "@" (loc +:+ "@" +:+ d) !! 1 = Some d.
Proof.
  intros Hl Hd. now rewrite (split_at_first _ _ Hl), (split_no_at _ Hd).
Qed.

(** ** The sample Unicode database *)

Lemma ascii_view_ascii (s : string) : is_ascii_text s = true -> ascii_view s = s.
Proof.
  induction s as [|c s IH]; [reflexivity|]. cbn [is_ascii_text ascii_view].
  intros H. apply andb_true_iff in H as [Hc Hs]. now rewrite Hc, (IH Hs).
Qed.

Lemma count_alnum_length (s : string) : count_alnum s <= String.length s.
Proof.
  induction s as [|c s IH]; [reflexivity|]. cbn [count_alnum String.length].
  destruct (is_lower c || is_digit c); lia.
Qed.

Lemma ascii_view_length (s : string) :
  String.length (ascii_view s) = String.length s.
Proof. induction s as [|c s IH]; [reflexivity|]. cbn. now rewrite IH. Qed.

Lemma lower_preserves_length (s : string) :
  String.length (lower s) = String.length s.
Proof. induction s as [|c s IH]; [reflexivity|]. cbn. now rewrite IH. Qed.

Lemma sample_alnum_bound (s : string) :
  count_alnum (ascii_view (lower s)) <= String.length s.
Proof.
  etransitivity; [apply count_alnum_length|].
  now rewrite ascii_view_length, lower_preserves_length.
Qed.

Definition sample_unicode : unicode :=
  Unicode lower ascii_view (fun s _ => eq_refl) ascii_view_ascii lower_idem
          sample_alnum_bound.

(** ** The matcher only finds texts of the pattern *)

Lemma rep_match_sound (p : ascii -> bool) (s : string) :
  forall min k prev x,
    Re.rep_match p min k prev s = Some x ->
    exists m rest prev',
      s = m +:+ rest /\ all_chars p m = true /\ min <= String.length m
      /\ k prev' rest = Some x.
Proof.
  induction s as [|c s IH]; intros min k prev x H; cbn [Re.rep_match] in H.
  - destruct min; [|discriminate]. now exists "", "", prev.
  - assert (Hstop : match min with 0 => k prev (String c s) | S _ => None end = Some x ->
                    exists m rest prev', String c s = m +:+ rest /\ all_chars p m = true
                      /\ min <= String.length m /\ k prev' rest = Some x).
    { destruct min; [|discriminate]. intros Hk. now exists "", (String c s), prev. }
    destruct (p c) eqn:Hp; [|now apply Hstop].
    destruct (Re.rep_match p (Nat.pred min) k (Some c) s) as [y|] eqn:E;
      [|now apply Hstop].
    injection H as ->. destruct (IH _ _ _ _ E) as (m & rest & prev' & -> & Hm & Hlen & Hk).
    exists (String c m), rest, prev'. simpl. rewrite Hp, Hm. repeat split; [lia|exact Hk].
Qed.

Lemma re_match_sound (r : Re.regex) :
  forall k prev s x,
    Re.re_match r k prev s = Some x ->
    exists m rest prev', s = m +:+ rest /\ lang r m /\ k prev' rest = Some x.
Proof.
  induction r as [a|p|p min|r1 IH1 r2 IH2|r1 IH1 r2 IH2|];
    intros k prev s x H; cbn [Re.re_match] in H.
  - destruct s as [|c s]; [discriminate|].
    destruct (Ascii.eqb c a) eqn:E; [|discriminate]. apply Ascii.eqb_eq in E as ->.
    exists (String a ""), s, (Some a). repeat split; [constructor|exact H].
  - destruct s as [|c s]; [discriminate|].
    destruct (p c) eqn:E; [|discriminate].
    exists (String c ""), s, (Some c). repeat split; [now constructor|exact H].
  - destruct (rep_match_sound _ _ _ _ _ _ H) as (m & rest & prev' & -> & Hm & Hlen & Hk).
    exists m, rest, prev'. repeat split; [now constructor|exact Hk].
  - destruct (Re.re_match r1 k prev s) as [y|] eqn:E.
    + injection H as ->. destruct (IH1 _ _ _ _ E) as (m & rest & prev' & -> & Hm & Hk).
      exists m, rest, prev'. repeat split; [now apply lang_AltL|exact Hk].
    + destruct (IH2 _ _ _ _ H) as (m & rest & prev' & -> & Hm & Hk).
      exists m, rest, prev'. repeat split; [now apply lang_AltR|exact Hk].
  - destruct (IH1 _ _ _ _ H) as (m1 & rest1 & prev1 & -> & Hm1 & H2).
    destruct (IH2 _ _ _ _ H2) as (m2 & rest & prev' & -> & Hm2 & Hk).
    exists (m1 +:+ m2), rest, prev'. rewrite append_assoc.
    repeat split; [now constructor|exact Hk].
  - destruct (xorb _ _); [|discriminate].
    exists "", s, prev. repeat split; [constructor|exact H].
Qed.

Lemma match_at_sound (r : Re.regex) (prev : option ascii) (s : string) (n : nat) :
  Re.match_at r prev s = Some n -> lang r (take n s).
Proof.
  unfold Re.match_at. intros H.
  destruct (Re.re_match r _ prev s) as [rest|] eqn:E; [|discriminate].
  injection H as <-.
  destruct (re_match_sound _ _ _ _ _ E) as (m & rest' & prev' & -> & Hm & Hk).
  injection Hk as ->. rewrite length_append.
  replace (String.length m + String.length rest - String.length rest)
    with (String.length m) by lia.
  now rewrite take_append.
Qed.

Lemma findall_sound (r : Re.regex) (s : string) :
  forall skip prev m, m ∈ Re.findall_from r skip prev s -> lang r m.
Proof.
  induction s as [|c s IH]; intros skip prev m H; cbn [Re.findall_from] in H.
  - now apply not_elem_of_nil in H.
  - destruct skip as [|k]; [|now apply IH in H].
    destruct (Re.match_at r prev (String c s)) as [[|n]|] eqn:E;
      try (now apply IH in H).
    apply elem_of_cons in H as [->|H]; [|now apply IH in H].
    now apply match_at_sound in E.
Qed.

(** Every text the address pattern matches is [loc@d] with one [@]. *)
Lemma email_shape (m : string) :
  lang EMAIL_REGEX m ->
  exists loc d, m = loc +:+ "@" +:+ d /\ no_at loc /\ no_at d.
Proof.
  unfold EMAIL_REGEX. intros H.
  inversion H as [| | | | |? ? m1 t1 H1 T1|]; subst; clear H.
  inversion T1 as [| | | | |? ? m2 t2 H2 T2|]; subst; clear T1.
  inversion T2 as [| | | | |? ? m3 t3 H3 T3|]; subst; clear T2.
  inversion T3 as [| | | | |? ? m4 t4 H4 T4|]; subst; clear T3.
  inversion H1 as [| |? ? ? A1 _| | | |]; subst; clear H1.
  inversion H2; subst; clear H2.
  inversion H3 as [| |? ? ? A3 _| | | |]; subst; clear H3.
  inversion H4; subst; clear H4.
  inversion T4 as [| |? ? ? A4 _| | | |]; subst; clear T4.
  exists m1, (m3 +:+ "." +:+ t4). split; [reflexivity|]. split.
  - revert A1. apply all_chars_impl.
    intros [[] [] [] [] [] [] [] []]; vm_compute; congruence.
  - apply no_at_app; [|apply no_at_app; [reflexivity|]].
    + revert A3. apply all_chars_impl.
      intros [[] [] [] [] [] [] [] []]; vm_compute; congruence.
    + revert A4. apply all_chars_impl.
      intros [[] [] [] [] [] [] [] []]; vm_compute; congruence.
Qed.

Lemma findall_email_shape (html m : string) :
  m ∈ Re.findall EMAIL_REGEX html ->
  exists loc d, m = loc +:+ "@" +:+ d /\ no_at loc /\ no_at d.
Proof. intros H. now apply email_shape, (findall_sound _ _ _ _ _ H). Qed.

(** The patterns of the program never match the empty text. *)
Lemma patterns_consume (r : Re.regex) (m : string) :
  r = LEGAL_SUFFIX \/ r = NON_ALNUM \/ r = EMAIL_REGEX ->
  lang r m -> m <> "".
Proof.
  intros [->|[->| ->]] H.
  - unfold LEGAL_SUFFIX in H. cbn [Re.word] in H.
    repeat match goal with
           | X : lang (Re.Cat _ _) _ |- _ => inversion X; subst; clear X
           | X : lang (Re.Alt _ _) _ |- _ => inversion X; subst; clear X
           | X : lang (Re.Lit _) _ |- _ => inversion X; subst; clear X
           | X : lang Re.WordB _ |- _ => inversion X; subst; clear X
           end; discriminate.
  - inversion H; subst. discriminate.
  - destruct (email_shape _ H) as (loc & d & -> & _ & _).
    destruct loc; discriminate.
Qed.

(** ** Computations *)

Lemma bind_ret_l {A B} (a : A) (f : A -> M B) : bind (ret a) f = f a.
Proof. unfold bind, ret. now destruct (f a). Qed.

Lemma outcome_bind {A B} (m : M A) (f : A -> M B) :
  outcome (bind m f) =
  match outcome m with Ok a => outcome (f a) | Raised => Raised end.
Proof. destruct m as [t [a|]]; simpl; [now destruct (f a)|reflexivity]. Qed.

Lemma events_bind {A B} (m : M A) (f : A -> M B) :
  events (bind m f) =
  events m ++ match outcome m with Ok a => events (f a) | Raised => [] end.
Proof.
  destruct m as [t [a|]]; simpl; [now destruct (f a)|now rewrite app_nil_r].
Qed.

Lemma outcome_try_except {A} (body handler : M A) :
  outcome (try_except body handler) =
  match outcome body with Ok a => Ok a | Raised => outcome handler end.
Proof. destruct body as [t [a|]]; simpl; [reflexivity|now destruct handler]. Qed.

Lemma events_try_except {A} (body handler : M A) :
  events (try_except body handler) =
  events body ++ match outcome body with Ok _ => [] | Raised => events handler end.
Proof.
  destruct body as [t [a|]]; simpl; [now rewrite app_nil_r|now destruct handler].
Qed.

Lemma M_eq {A} (m : M A) : m = (events m, outcome m).
Proof. now destruct m. Qed.

(** ** scraping_url.py *)

Lemma clean_name_events (U : unicode) (name : pyval) : events (clean_name U name) = [].
Proof. unfold clean_name. destruct (negb (truthy name)); [|destruct name]; reflexivity. Qed.

Lemma match_items_step (U : unicode) (company_name : pyval) (q : string) (item : pyval)
    (rest : list pyval) (d n : string) :
  candidate U item = Some (d, n) ->
  match_items U company_name q (item :: rest) =
  if rule1 q d then
    ([Printed (ApiMatch company_name d)], Ok (Some ("https://" +:+ d)))
  else if rule2 q n then
    ([Printed (ApiNameMatch company_name d)], Ok (Some ("https://" +:+ d)))
  else match_items U company_name q rest.
Proof.
  unfold candidate. destruct item as [| | | | |fields]; try discriminate.
  destruct (default (PStr "") (dict_lookup "domain" fields)) as [| | |dom| |] eqn:Ed;
    try discriminate.
  destruct (outcome (clean_name U _)) as [nm|] eqn:En; [|discriminate].
  intros [= -> ->]. cbn [match_items py_get]. rewrite !bind_ret_l, Ed.
  rewrite (M_eq (clean_name U _)), clean_name_events, En.
  change (@pair (list event) (result string) [] (Ok n)) with (ret n).
  rewrite bind_ret_l. unfold rule1, rule2.
  destruct (contains q (replace "." "" d)); [reflexivity|].
  destruct (contains q n || contains n q); reflexivity.
Qed.



(** A 200 answer carrying a list: the client reports what the loop over
    its first three items finds, and swallows what it raises. *)
Lemma sync_clearbit_200 (U : unicode) (api : pyval -> option response) (name : pyval)
    (r : response) (items : list pyval) (q : string) :
  api name = Some r -> status_code r = 200%Z -> json r = Some (PList items) ->
  outcome (clean_name U name) = Ok q ->
  _sync_clearbit U api name =
  (HttpGet SUGGEST_URL [("query", name)]
     :: events (match_items U name q (firstn 3 items)),
   Ok (match outcome (match_items U name q (firstn 3 items)) with
       | Ok v => v
       | Raised => None
       end)).
Proof.
  intros Hapi Hst Hjs Hq. unfold _sync_clearbit, session_get.
  rewrite Hapi. cbn [emit bind ret app]. rewrite Hst. cbn [Z.eqb Pos.eqb].
  unfold response_json. rewrite Hjs, bind_ret_l. cbn [truthy].
  destruct items as [|x rest].
  - reflexivity.
  - rewrite bool_decide_eq_false_2 by discriminate. cbn [negb].
    rewrite (M_eq (clean_name U name)), clean_name_events, Hq.
    change (@pair (list event) (result string) [] (Ok q)) with (ret q).
    rewrite bind_ret_l. cbn [first_three]. rewrite bind_ret_l.
    destruct (match_items U name q (firstn 3 (x :: rest))) as [t [[u|]|]];
      simpl; rewrite ?app_nil_r; reflexivity.
Qed.

(** [domain.replace('.', '')] is the domain without its dots. *)
Lemma replace_dot_removes_dots (s : string) :
  replace "." "" s = remove_char "." s.
Proof.
  unfold replace. induction s as [|c s IH]; [reflexivity|].
  cbn [replace_from remove_char startswith String.length Nat.sub].
  rewrite andb_true_r, (Ascii.eqb_sym "." c).
  destruct (Ascii.eqb c "."); cbn [String.append]; now rewrite IH.
Qed.

Example clean_name_acme_corp : clean_name sample_unicode (PStr "Acme Corp") = ([], Ok "acme").
Proof. vm_compute. reflexivity. Qed.

Example clean_name_legal_suffixes :
  clean_name sample_unicode (PStr "The Coca-Cola Company, Inc.") = ([], Ok "thecocacola")
  /\ clean_name sample_unicode (PStr "Incorporated Co_x co") = ([], Ok "incorporatedcox")
  /\ clean_name sample_unicode (PStr "Inc.") = ([], Ok "")
  /\ clean_name sample_unicode (PNum true) = ([], Raised).
Proof. repeat split; vm_compute; reflexivity. Qed.

(** A legal token glued to an accented letter is not a whole word. *)
Example clean_name_accented :
  clean_name sample_unicode (PStr eco_accented) = ([], Ok "co").
Proof. vm_compute. reflexivity. Qed.

(** ** Normalization: the patterns against the word-by-word reading *)

Lemma match_at_cls (p : ascii -> bool) (prev : option ascii) (c : ascii)
    (s : string) :
  Re.match_at (Re.Cls p) prev (String c s) = if p c then Some 1 else None.
Proof.
  unfold Re.match_at. cbn [Re.re_match]. destruct (p c); [|reflexivity].
  f_equal. cbn [String.length]. lia.
Qed.

(** Deleting the matches of a one-character class keeps the other
    characters. *)
Lemma sub_cls (p : ascii -> bool) (s : string) :
  forall prev,
    Re.sub_from (Re.Cls p) "" 0 prev s = filter_chars (fun c => negb (p c)) s.
Proof.
  induction s as [|c s IH]; intros prev; [reflexivity|].
  cbn [Re.sub_from filter_chars]. rewrite match_at_cls.
  destruct (p c); cbn [negb String.append]; now rewrite IH.
Qed.


Lemma word_split (s : string) : s = word_at s +:+ after_word s.
Proof.
  induction s as [|c s IH]; [reflexivity|]. cbn [word_at after_word].
  destruct (is_word c); [|reflexivity]. cbn [String.append]. now f_equal.
Qed.


Lemma word_at_app (w rest : string) :
  all_chars is_word w = true -> word_at (w +:+ rest) = w +:+ word_at rest.
Proof.
  induction w as [|c w IH]; [reflexivity|]. cbn [all_chars String.append word_at].
  intros H. apply andb_true_iff in H as [Hc Hw]. now rewrite Hc, (IH Hw).
Qed.

Lemma after_word_app (w rest : string) :
  all_chars is_word w = true -> after_word (w +:+ rest) = after_word rest.
Proof.
  induction w as [|c w IH]; [reflexivity|]. cbn [all_chars String.append after_word].
  intros H. apply andb_true_iff in H as [Hc Hw]. now rewrite Hc, (IH Hw).
Qed.


Lemma word_at_nonword (rest : string) :
  Re.is_word_at (Re.first_char rest) = false ->
  word_at rest = "" /\ after_word rest = rest.
Proof.
  destruct rest as [|d r]; [now split|]. cbn. intros ->. now split.
Qed.

Lemma word_at_nonempty (s : string) :
  word_at s <> "" -> Re.is_word_at (Re.first_char s) = true.
Proof.
  destruct s as [|c s]; [now intros []|]. cbn. destruct (is_word c); [reflexivity|].
  now intros [].
Qed.

Lemma append_eq_self (w x : string) : w +:+ x = w -> x = "".
Proof.
  intros H. apply (f_equal String.length) in H. rewrite length_append in H.
  destruct x; [reflexivity|]. cbn in H. lia.
Qed.

Lemma word_length (s : string) :
  String.length s - String.length (after_word s) = String.length (word_at s).
Proof. rewrite (word_split s) at 1. rewrite length_append. lia. Qed.

(** A literal word, followed by the test that the word ends there. *)
Lemma re_word_whole (w : string) :
  forall prev rest,
    w <> "" -> all_chars is_word w = true ->
    Re.re_match (Re.word w) (Re.re_match Re.WordB (fun _ r => Some r))
      prev (w +:+ rest)
    = if Re.is_word_at (Re.first_char rest) then None else Some rest.
Proof.
  induction w as [|c w IH]; intros prev rest Hne Hall; [now destruct Hne|].
  cbn [all_chars] in Hall. apply andb_true_iff in Hall as [Hc Hw].
  destruct w as [|d w].
  - cbn [Re.word Re.re_match String.append]. rewrite Ascii.eqb_refl.
    cbn [Re.is_word_at]. rewrite Hc.
    now destruct (Re.is_word_at (Re.first_char rest)).
  - change (Re.word (String c (String d w)))
      with (Re.Cat (Re.Lit c) (Re.word (String d w))).
    cbn [Re.re_match String.append]. rewrite Ascii.eqb_refl.
    apply (IH (Some c) rest); [discriminate|exact Hw].
Qed.

Lemma re_word_fail (w : string) :
  forall k prev s,
    w <> "" -> startswith w s = false ->
    Re.re_match (Re.word w) k prev s = None.
Proof.
  induction w as [|c w IH]; intros k prev s Hne Hs; [now destruct Hne|].
  destruct w as [|d w].
  - cbn [Re.word Re.re_match]. destruct s as [|b s]; [reflexivity|].
    cbn [startswith] in Hs. rewrite andb_true_r, Ascii.eqb_sym in Hs.
    now rewrite Hs.
  - change (Re.word (String c (String d w)))
      with (Re.Cat (Re.Lit c) (Re.word (String d w))).
    cbn [Re.re_match]. destruct s as [|b s]; [reflexivity|].
    cbn [startswith] in Hs. rewrite (Ascii.eqb_sym c b) in Hs.
    destruct (Ascii.eqb b c); [|reflexivity].
    cbn [andb] in Hs. apply IH; [discriminate|exact Hs].
Qed.

(** The literal [w] between two word boundaries matches exactly when the
    word at the start of the text is [w]. *)
Lemma re_word_at (w : string) (prev : option ascii) (s : string) :
  w <> "" -> all_chars is_word w = true ->
  Re.re_match (Re.word w) (Re.re_match Re.WordB (fun _ r => Some r)) prev s
  = if String.eqb (word_at s) w then Some (after_word s) else None.
Proof.
  intros Hne Hall. destruct (startswith w s) eqn:Hs.
  - destruct (startswith_inv _ _ Hs) as [rest ->].
    rewrite (re_word_whole w prev rest Hne Hall).
    rewrite (word_at_app _ _ Hall), (after_word_app _ _ Hall).
    destruct (Re.is_word_at (Re.first_char rest)) eqn:Hr.
    + destruct (String.eqb_spec (w +:+ word_at rest) w) as [E|_]; [|reflexivity].
      apply append_eq_self in E. destruct rest as [|d r]; [discriminate|].
      cbn in Hr, E. rewrite Hr in E. discriminate.
    + destruct (word_at_nonword _ Hr) as [-> ->].
      now rewrite append_nil_r, String.eqb_refl.
  - rewrite (re_word_fail w _ prev s Hne Hs).
    destruct (String.eqb_spec (word_at s) w) as [E|_]; [|reflexivity].
    exfalso. rewrite (word_split s), E, startswith_app in Hs. discriminate.
Qed.

(** The first pattern matches at a position exactly when no word character
    precedes it and the word that starts there is a legal-entity token. *)
Lemma legal_match_at (prev : option ascii) (s : string) :
  Re.match_at LEGAL_SUFFIX prev s =
  if negb (Re.is_word_at prev) && bool_decide (word_at s ∈ LEGAL_WORDS)
  then Some (String.length (word_at s)) else None.
Proof.
  unfold Re.match_at, LEGAL_SUFFIX. cbn [Re.re_match].
  rewrite !re_word_at by (discriminate || reflexivity).
  assert (Hin : forall w, w ∈ LEGAL_WORDS -> word_at s = w ->
    Re.is_word_at (Re.first_char s) = true
    /\ bool_decide (word_at s ∈ LEGAL_WORDS) = true).
  { intros w Hw E. split.
    - apply word_at_nonempty. rewrite E. intros ->.
      unfold LEGAL_WORDS in Hw.
      repeat (apply elem_of_cons in Hw as [Hw|Hw]; [discriminate|]).
      now apply elem_of_nil in Hw.
    - apply bool_decide_eq_true_2. now rewrite E. }
  assert (Hyes : forall w, w ∈ LEGAL_WORDS -> word_at s = w ->
    match (if xorb (Re.is_word_at prev) (Re.is_word_at (Re.first_char s))
           then Some (after_word s) else None) with
    | Some rest => Some (String.length s - String.length rest)
    | None => None
    end
    = if negb (Re.is_word_at prev) && bool_decide (word_at s ∈ LEGAL_WORDS)
      then Some (String.length (word_at s)) else None).
  { intros w Hw E. destruct (Hin w Hw E) as [-> ->].
    destruct (Re.is_word_at prev); cbn; [reflexivity|]. now rewrite word_length. }
  destruct (String.eqb_spec (word_at s) "inc") as [E|N1].
  { rewrite <- (Hyes "inc") by (assumption || (unfold LEGAL_WORDS; set_solver)).
    now destruct (xorb _ _). }
  destruct (String.eqb_spec (word_at s) "llc") as [E|N2].
  { rewrite <- (Hyes "llc") by (assumption || (unfold LEGAL_WORDS; set_solver)).
    now destruct (xorb _ _). }
  destruct (String.eqb_spec (word_at s) "ltd") as [E|N3].
  { rewrite <- (Hyes "ltd") by (assumption || (unfold LEGAL_WORDS; set_solver)).
    now destruct (xorb _ _). }
  destruct (String.eqb_spec (word_at s) "corp") as [E|N4].
  { rewrite <- (Hyes "corp") by (assumption || (unfold LEGAL_WORDS; set_solver)).
    now destruct (xorb _ _). }
  destruct (String.eqb_spec (word_at s) "limited") as [E|N5].
  { rewrite <- (Hyes "limited") by (assumption || (unfold LEGAL_WORDS; set_solver)).
    now destruct (xorb _ _). }
  destruct (String.eqb_spec (word_at s) "company") as [E|N6].
  { rewrite <- (Hyes "company") by (assumption || (unfold LEGAL_WORDS; set_solver)).
    now destruct (xorb _ _). }
  destruct (String.eqb_spec (word_at s) "co") as [E|N7].
  { rewrite <- (Hyes "co") by (assumption || (unfold LEGAL_WORDS; set_solver)).
    now destruct (xorb _ _). }
  rewrite bool_decide_eq_false_2, andb_false_r; [now destruct (xorb _ _)|].
  intros H. unfold LEGAL_WORDS in H.
  repeat (apply elem_of_cons in H as [H|H]; [congruence|]).
  now apply elem_of_nil in H.
Qed.


(** Outside a word, the first pattern copies a character that is not a
    word character. *)
Lemma sub_legal_nonword (prev : option ascii) (c : ascii) (s : string) :
  is_word c = false ->
  Re.sub_from LEGAL_SUFFIX "" 0 prev (String c s)
  = String c (Re.sub_from LEGAL_SUFFIX "" 0 (Some c) s).
Proof.
  intros Hc. cbn [Re.sub_from]. rewrite legal_match_at.
  cbn [word_at]. rewrite Hc. now rewrite andb_false_r.
Qed.



Lemma sub_legal_after (p1 p2 : option ascii) (rest : string) :
  Re.is_word_at (Re.first_char rest) = false ->
  Re.sub_from LEGAL_SUFFIX "" 0 p1 rest = Re.sub_from LEGAL_SUFFIX "" 0 p2 rest.
Proof.
  destruct rest as [|d r]; [reflexivity|].
  cbn [Re.first_char Re.is_word_at]. intros Hd.
  now rewrite !(sub_legal_nonword _ _ _ Hd).
Qed.











(** C6. Empty-name edge. The absent name and the empty name normalize to
    the empty string; the empty string occurs in every domain; so for every
    name that normalizes to the empty string and every suggestion list
    whose first item is a readable suggestion, rule 1 accepts that first
    item and the client returns its domain. *)
Theorem empty_name_matches_first (U : unicode) (api : pyval -> option response)
    (name : pyval) (r : response) (item : pyval) (rest : list pyval)
    (d n : string) :
  api name = Some r -> status_code r = 200%Z ->
  json r = Some (PList (item :: rest)) ->
  outcome (clean_name U name) = Ok "" ->
  candidate U item = Some (d, n) ->
  outcome (clean_name U PNone) = Ok ""
  /\ outcome (clean_name U (PStr "")) = Ok ""
  /\ (forall domain, substring_of "" domain)
  /\ rule1 "" d = true
  /\ _sync_clearbit U api name =
     ([HttpGet SUGGEST_URL [("query", name)]; Printed (ApiMatch name d)],
      Ok (Some ("https://" +:+ d))).
Proof.
  intros Hapi Hst Hjs Hq Hc.
  assert (H1 : rule1 "" d = true) by apply contains_empty.
  repeat split; try reflexivity.
  - intros domain. apply contains_iff, contains_empty.
  - exact H1.
  - rewrite (sync_clearbit_200 _ _ _ _ _ _ Hapi Hst Hjs Hq).
    change (firstn 3 (item :: rest)) with (item :: firstn 2 rest).
    rewrite (match_items_step _ _ _ _ _ _ _ Hc), H1. reflexivity.
Qed.

Lemma empty_name_matches_first_witness :
  _sync_clearbit sample_unicode (fun _ => Some acme_answer) PNone =
  ([HttpGet SUGGEST_URL [("query", PNone)]; Printed (ApiMatch PNone "acme.io")],
   Ok (Some "https://acme.io")).
Proof.
  apply ((empty_name_matches_first sample_unicode) (fun _ => Some acme_answer) PNone acme_answer
           (PDict [("domain", PStr "acme.io")])
           [PDict [("domain", PStr "other.com")]] "acme.io" "");
    reflexivity.
Defined.

(** C7. Suggestion Client. The client never raises; on a transport error,
    a status other than 200, a body that does not decode as JSON, or a
    decoded body that is empty (an empty list, [null]), it returns
    [None]. *)
Theorem sync_clearbit_failure_is_none (U : unicode) (api : pyval -> option response)
    (name : pyval) :
  outcome (_sync_clearbit U api name) <> Raised
  /\ (failed_lookup (api name) -> outcome (_sync_clearbit U api name) = Ok None).
Proof.
  split.
  - unfold _sync_clearbit. rewrite outcome_bind, outcome_try_except.
    destruct (outcome _) as [[u|]|]; discriminate.
  - unfold failed_lookup, _sync_clearbit, session_get.
    destruct (api name) as [r|]; [|reflexivity].
    cbn [emit bind ret app].
    intros [Hst|[Hjs|(data & Hjs & Hdata)]].
    + apply Z.eqb_neq in Hst. now rewrite Hst.
    + destruct (status_code r =? 200)%Z; [|reflexivity].
      unfold response_json. now rewrite Hjs.
    + destruct (status_code r =? 200)%Z; [|reflexivity].
      unfold response_json. rewrite Hjs, bind_ret_l, Hdata. reflexivity.
Qed.

Lemma sync_clearbit_failure_is_none_witness :
  outcome (_sync_clearbit sample_unicode (fun _ => Some (Response 503 None "" ""))
             (PStr "Acme Corp")) = Ok None.
Proof.
  apply ((sync_clearbit_failure_is_none sample_unicode)
           (fun _ => Some (Response 503 None "" "")) (PStr "Acme Corp")).
  left. discriminate.
Defined.

(** The bare [except] leaves the client no way to raise. *)
Lemma sync_clearbit_never_raises (U : unicode) (api : pyval -> option response) (name : pyval) :
  outcome (_sync_clearbit U api name) <> Raised.
Proof.
  unfold _sync_clearbit. rewrite outcome_bind, outcome_try_except.
  destruct (outcome _) as [[u|]|]; discriminate.
Qed.

Lemma match_items_url (U : unicode) (company_name : pyval) (q : string) (items : list pyval)
    (u : string) :
  outcome (match_items U company_name q items) = Ok (Some u) ->
  exists d, u = "https://" +:+ d.
Proof.
  induction items as [|item rest IH]; [discriminate|].
  cbn [match_items]. rewrite outcome_bind.
  destruct (outcome (py_get item "domain" (PStr ""))) as [domain|]; [|discriminate].
  rewrite outcome_bind.
  destruct (outcome (py_get item "name" (PStr ""))) as [nm|]; [|discriminate].
  rewrite outcome_bind.
  destruct (outcome (clean_name U nm)) as [item_name|]; [|discriminate].
  destruct domain as [| | |domain| |]; try discriminate.
  destruct (contains q (replace "." "" domain)).
  { intros [= <-]. now exists domain. }
  destruct (contains q item_name || contains item_name q).
  { intros [= <-]. now exists domain. }
  exact IH.
Qed.

(** A URL the client returns is never the empty string. *)
Lemma sync_clearbit_url_truthy (U : unicode) (api : pyval -> option response) (name : pyval)
    (u : option string) :
  outcome (_sync_clearbit U api name) = Ok u -> u = None \/ truthy_url u = true.
Proof.
  destruct u as [u|]; [|now left]. intros H. right.
  assert (Hd : exists d, u = "https://" +:+ d); [|now destruct Hd as [d ->]].
  revert H. unfold _sync_clearbit. rewrite outcome_bind, outcome_try_except.
  rewrite outcome_bind. unfold session_get. rewrite outcome_bind. cbn [emit outcome snd].
  destruct (api name) as [r|]; [|discriminate]. cbn [ret outcome snd].
  destruct (status_code r =? 200)%Z; [|discriminate].
  rewrite outcome_bind. destruct (outcome (response_json r)) as [data|]; [|discriminate].
  destruct (truthy data); [|discriminate].
  rewrite outcome_bind. destruct (outcome (clean_name U name)) as [q|]; [|discriminate].
  rewrite outcome_bind. destruct (outcome (first_three data)) as [items|]; [|discriminate].
  destruct (outcome (match_items U name q items)) as [[v|]|] eqn:E; try discriminate.
  intros [= ->]. exact (match_items_url _ _ _ _ _ E).
Qed.

Lemma gather_ok {A} (tasks : list (M A)) :
  (forall t, t ∈ tasks -> outcome t <> Raised) ->
  exists l, gather tasks = Ok l /\ Forall2 (fun t v => outcome t = Ok v) tasks l.
Proof.
  induction tasks as [|t ts IH]; intros H.
  - exists []. split; [reflexivity|constructor].
  - destruct IH as (l & Hl & Hall).
    { intros t' Ht'. apply H. now right. }
    cbn [gather]. rewrite Hl.
    destruct (outcome t) as [a|] eqn:E.
    + exists (a :: l). split; [reflexivity|now constructor].
    + exfalso. apply (H t); [now left|exact E].
Qed.

(** The loop that stores the truthy results at their positions. *)
Lemma store_results (l : list (option string)) :
  forall k acc,
    k + length l <= length acc ->
    let out :=
      foldl (fun results '(i, url) =>
               if truthy_url url then <[i := url]> results else results)
            acc (imap (fun i x => (k + i, x)) l) in
    length out = length acc
    /\ (forall j, j < k -> out !! j = acc !! j)
    /\ (forall j u, l !! j = Some u ->
          out !! (k + j) = if truthy_url u then Some u else acc !! (k + j)).
Proof.
  induction l as [|x l IH]; intros k acc Hlen; cbn zeta.
  - repeat split; intros; discriminate.
  - rewrite imap_cons. cbn [foldl]. rewrite Nat.add_0_r.
    set (acc' := if truthy_url x then <[k := x]> acc else acc).
    assert (Hacc' : length acc' = length acc).
    { subst acc'. destruct (truthy_url x); [apply length_insert|reflexivity]. }
    rewrite (imap_ext _ (fun i y => (S k + i, y)) l)
      by (intros i y _; simpl; f_equal; lia).
    cbn [length] in Hlen.
    destruct (IH (S k) acc') as (H1 & H2 & H3); [lia|].
    cbn zeta in H1, H2, H3. repeat split.
    + now rewrite H1.
    + intros j Hj. rewrite H2 by lia. subst acc'.
      destruct (truthy_url x); [|reflexivity].
      apply list_lookup_insert_ne. lia.
    + intros [|j] u Hj.
      * injection Hj as ->. rewrite Nat.add_0_r, H2 by lia. subst acc'.
        destruct (truthy_url u); [|reflexivity].
        apply list_lookup_insert_eq. lia.
      * replace (k + S j) with (S k + j) by lia.
        rewrite (H3 j u Hj). destruct (truthy_url u); [reflexivity|].
        subst acc'. destruct (truthy_url x); [|reflexivity].
        apply list_lookup_insert_ne. lia.
Qed.

(** C5. Batch Orchestrator. For every list of names and whatever the
    network answers to each lookup, [get_urls_api] returns a list as long
    as the input, and its position [i] holds what the lookup of the name at
    position [i] returned: its URL, or [None]. *)
Theorem get_urls_api_aligned (U : unicode) (net : nat -> pyval -> option response)
    (company_list : list pyval) :
  exists out,
    get_urls_api U net company_list = Ok out
    /\ length out = length company_list
    /\ forall i name, company_list !! i = Some name ->
         exists u, outcome (_sync_clearbit U (net i) name) = Ok u
                   /\ out !! i = Some u.
Proof.
  unfold get_urls_api.
  destruct (gather_ok (imap (fun i name => fetch_api U (net i) name) company_list))
    as (api_results & Hg & Hall).
  { intros t Ht. apply list_elem_of_lookup in Ht as [i Hi].
    rewrite list_lookup_imap in Hi.
    destruct (company_list !! i) as [name|]; [|discriminate].
    injection Hi as <-. apply sync_clearbit_never_raises. }
  rewrite Hg. eexists. split; [reflexivity|].
  assert (Hlen : length api_results = length company_list).
  { rewrite <- (Forall2_length _ _ _ Hall). apply length_imap. }
  destruct (store_results api_results 0 (replicate (length company_list) None))
    as (H1 & _ & H3).
  { rewrite length_replicate. lia. }
  cbn zeta in H1, H3. change (imap (fun i x => (0 + i, x)) api_results)
    with (imap pair api_results) in H1, H3.
  split; [now rewrite H1, length_replicate|].
  intros i name Hi.
  destruct (Forall2_lookup_l _ _ _ i (fetch_api U (net i) name) Hall)
    as (u & Hu & Hout).
  { rewrite list_lookup_imap, Hi. reflexivity. }
  exists u. split; [exact Hout|].
  specialize (H3 i u Hu). cbn [Nat.add] in H3. rewrite H3.
  destruct (sync_clearbit_url_truthy _ _ _ _ Hout) as [-> | ->]; [|reflexivity].
  apply lookup_replicate_2. apply lookup_lt_Some in Hi. exact Hi.
Qed.

Lemma get_urls_api_aligned_witness :
  exists out,
    get_urls_api sample_unicode sample_net [PStr "Acme Corp"; PStr "Acme"; PStr "Zenith"] = Ok out
    /\ out !! 1 = Some None.
Proof.
  destruct ((get_urls_api_aligned sample_unicode) sample_net
              [PStr "Acme Corp"; PStr "Acme"; PStr "Zenith"])
    as (out & Hout & _ & Hpos).
  exists out. split; [exact Hout|].
  destruct (Hpos 1 (PStr "Acme") eq_refl) as (u & Hu & Hlookup).
  vm_compute in Hu. injection Hu as <-. exact Hlookup.
Defined.

(** ** get_email.py *)

(** C8. MX Validator. For every input string the validator returns a
    boolean and never raises. It returns [True] exactly when the input has
    a field after its first [@] and the MX query for that field answers
    with one or more records; so a string without [@], a failed resolution
    and an empty answer all give [False]. For an address [loc@d] with one
    [@] the domain queried is [d]. *)
Theorem check_mx_records_spec (dns : string -> dns_result) (email : string) :
  exists b,
    outcome (check_mx_records dns email) = Ok b
    /\ (b = true <->
        exists domain records,
          split "@" email !! 1 = Some domain
          /\ dns domain = DnsAnswer records /\ records <> [])
    /\ (forall loc d, email = loc +:+ "@" +:+ d -> no_at loc -> no_at d ->
          events (check_mx_records dns email) = [DnsResolveMX d]).
Proof.
  unfold check_mx_records, py_index, resolve_mx.
  destruct (split "@" email !! 1) as [domain|] eqn:Hsplit.
  - rewrite bind_ret_l. cbn [emit bind app].
    destruct (dns domain) as [records|e] eqn:Hdns.
    + exists (negb (bool_decide (records = []))). cbn. repeat split.
      * intros Hb. exists domain, records. repeat split; [exact Hdns|].
        intros ->. discriminate.
      * intros (domain' & records' & [= <-] & Hdns' & Hne).
        rewrite Hdns in Hdns'. injection Hdns' as <-.
        now rewrite bool_decide_eq_false_2.
      * intros loc d -> Hloc Hd. pose proof (split_address _ _ Hloc Hd) as X.
        cbn [String.append] in X. rewrite X in Hsplit.
        now injection Hsplit as ->.
    + exists false. cbn. repeat split.
      * discriminate.
      * intros (domain' & records' & [= <-] & Hdns' & _). congruence.
      * intros loc d -> Hloc Hd. pose proof (split_address _ _ Hloc Hd) as X.
        cbn [String.append] in X. rewrite X in Hsplit.
        now injection Hsplit as ->.
  - exists false. cbn. repeat split.
    + discriminate.
    + intros (domain' & records' & Hd & _). discriminate.
    + intros loc d -> Hloc Hd. pose proof (split_address _ _ Hloc Hd) as X.
      cbn [String.append] in X. rewrite X in Hsplit. discriminate.
Qed.

Lemma check_mx_records_spec_witness :
  events (check_mx_records (fun _ => DnsError NXDOMAIN) "jane@acme.io")
  = [DnsResolveMX "acme.io"].
Proof.
  destruct (check_mx_records_spec (fun _ => DnsError NXDOMAIN) "jane@acme.io")
    as (b & _ & _ & Hev).
  apply (Hev "jane" "acme.io"); reflexivity.
Defined.

Lemma contact_is_target (a : anchor) : is_contact a = true -> is_target a = true.
Proof.
  unfold is_contact, is_target, any_keyword. cbn [TARGET_KEYWORDS existsb].
  intros H. apply orb_true_iff in H as [H|H]; rewrite H; [reflexivity|].
  apply orb_true_r.
Qed.

Section LinkSelector.
Variable urljoin : string -> string -> option string.
Variable base : string.

Lemma scan_anchors_step (t : option string) (a : anchor) (rest : list anchor) :
  scan_anchors urljoin base t (a :: rest) =
  if is_target a then
    match urljoin base (a_href a) with
    | Some link =>
        if is_contact a then Ok (Some link)
        else scan_anchors urljoin base (Some link) rest
    | None => Raised
    end
  else scan_anchors urljoin base t rest.
Proof. reflexivity. Qed.

Lemma scan_anchors_first_contact (pre : list anchor) (a : anchor)
    (post : list anchor) (u : string) :
  forall t,
    Forall (fun x => is_contact x = false) pre ->
    Forall (resolves urljoin base) pre ->
    is_contact a = true -> urljoin base (a_href a) = Some u ->
    scan_anchors urljoin base t (pre ++ a :: post) = Ok (Some u).
Proof.
  induction pre as [|x pre IH]; intros t Hpre Hres Ha Hu.
  - cbn [app]. now rewrite scan_anchors_step, (contact_is_target _ Ha), Hu, Ha.
  - apply Forall_cons in Hpre as [Hx Hpre]. apply Forall_cons in Hres as [Rx Hres].
    cbn [app]. rewrite scan_anchors_step, Hx.
    unfold resolves in Rx. destruct (is_target x); [|now apply IH].
    destruct (Rx eq_refl) as [link ->]. now apply IH.
Qed.

Lemma scan_anchors_no_target (l : list anchor) (t : option string) :
  Forall (fun x => is_target x = false) l -> scan_anchors urljoin base t l = Ok t.
Proof.
  induction l as [|x l IH]; intros H; [reflexivity|].
  apply Forall_cons in H as [Hx Hl]. rewrite scan_anchors_step, Hx. now apply IH.
Qed.

Lemma scan_anchors_last_target (pre : list anchor) (a : anchor)
    (post : list anchor) (u : string) :
  forall t,
    Forall (fun x => is_contact x = false) (pre ++ a :: post) ->
    Forall (resolves urljoin base) pre ->
    is_target a = true -> urljoin base (a_href a) = Some u ->
    Forall (fun x => is_target x = false) post ->
    scan_anchors urljoin base t (pre ++ a :: post) = Ok (Some u).
Proof.
  induction pre as [|x pre IH]; intros t Hall Hres Ha Hu Hpost; cbn [app] in *;
    apply Forall_cons in Hall as [Hx Hall]; rewrite scan_anchors_step, Hx.
  - rewrite Ha, Hu. now apply scan_anchors_no_target.
  - apply Forall_cons in Hres as [Rx Hres].
    unfold resolves in Rx. destruct (is_target x); [|now apply IH].
    destruct (Rx eq_refl) as [link ->]. now apply IH.
Qed.

Lemma scan_anchors_abort (pre : list anchor) (a : anchor) (post : list anchor) :
  forall t,
    Forall (fun x => is_contact x = false) pre ->
    is_target a = true -> urljoin base (a_href a) = None ->
    scan_anchors urljoin base t (pre ++ a :: post) = Raised.
Proof.
  induction pre as [|x pre IH]; intros t Hpre Ha Hu; cbn [app].
  - now rewrite scan_anchors_step, Ha, Hu.
  - apply Forall_cons in Hpre as [Hx Hpre]. rewrite scan_anchors_step, Hx.
    destruct (is_target x); [|now apply IH].
    destruct (urljoin base (a_href x)); [now apply IH|reflexivity].
Qed.

Lemma scan_anchors_raised (l : list anchor) :
  forall t,
    scan_anchors urljoin base t l = Raised ->
    exists pre a post,
      l = pre ++ a :: post /\ Forall (fun x => is_contact x = false) pre
      /\ is_target a = true /\ urljoin base (a_href a) = None.
Proof.
  induction l as [|x l IH]; intros t H; [discriminate|].
  rewrite scan_anchors_step in H.
  assert (Hrec : forall t', is_contact x = false ->
            scan_anchors urljoin base t' l = Raised ->
            exists pre a post,
              x :: l = pre ++ a :: post
              /\ Forall (fun y => is_contact y = false) pre
              /\ is_target a = true /\ urljoin base (a_href a) = None).
  { intros t' Hx Ht'. destruct (IH _ Ht') as (pre & a & post & -> & Hpre & Ha & Hu).
    exists (x :: pre), a, post. repeat split; try assumption. now constructor. }
  destruct (is_target x) eqn:Tx.
  - destruct (urljoin base (a_href x)) as [link|] eqn:Ux.
    + destruct (is_contact x) eqn:Cx; [discriminate|]. now apply (Hrec (Some link)).
    + exists [], x, l. repeat split; [constructor|assumption..].
  - apply (Hrec t); [|exact H].
    destruct (is_contact x) eqn:Cx; [|reflexivity].
    rewrite (contact_is_target _ Cx) in Tx. discriminate.
Qed.

Lemma scan_anchors_some (l : list anchor) (u : string) :
  scan_anchors urljoin base (Some u) l <> Ok None.
Proof.
  revert u. induction l as [|x l IH]; intros u; [discriminate|].
  rewrite scan_anchors_step.
  destruct (is_target x); [|apply IH].
  destruct (urljoin base (a_href x)); [|discriminate].
  destruct (is_contact x); [discriminate|apply IH].
Qed.

Lemma scan_anchors_none (l : list anchor) :
  scan_anchors urljoin base None l = Ok None ->
  Forall (fun x => is_target x = false) l.
Proof.
  induction l as [|x l IH]; [constructor|].
  rewrite scan_anchors_step. destruct (is_target x) eqn:Hx.
  - destruct (urljoin base (a_href x)) as [link|]; [|discriminate].
    destruct (is_contact x); [discriminate|].
    intros H. now apply scan_anchors_some in H.
  - intros H. constructor; [exact Hx|now apply IH].
Qed.

(** C4, as the code has it. Resolving an href can fail: [urljoin] raises
    on some hrefs, and the loop resolves every keyword anchor it meets.
    When [urljoin] resolves the keyword anchors scanned: if some anchor
    mentions [contact] in its text or its href, in any letter case, the
    selection is the first such anchor, wherever other keyword anchors
    stand; if none does, the selection is the last anchor that mentions a
    keyword, a later match overwriting an earlier one; the selection is
    the anchor's href resolved against the base URL. There is no selection
    exactly when no anchor mentions a keyword. The scan raises, and selects
    nothing, exactly when [urljoin] fails on a keyword anchor that no
    contact anchor precedes. *)
Theorem scan_anchors_selection (anchors : list anchor) :
  (forall pre a post u,
      anchors = pre ++ a :: post -> is_contact a = true ->
      Forall (fun x => is_contact x = false) pre ->
      Forall (resolves urljoin base) pre ->
      urljoin base (a_href a) = Some u ->
      scan_anchors urljoin base None anchors = Ok (Some u))
  /\ (forall pre a post u,
      anchors = pre ++ a :: post ->
      Forall (fun x => is_contact x = false) anchors ->
      Forall (resolves urljoin base) pre ->
      is_target a = true -> urljoin base (a_href a) = Some u ->
      Forall (fun x => is_target x = false) post ->
      scan_anchors urljoin base None anchors = Ok (Some u))
  /\ (scan_anchors urljoin base None anchors = Ok None <->
      Forall (fun x => is_target x = false) anchors)
  /\ (scan_anchors urljoin base None anchors = Raised <->
      exists pre a post,
        anchors = pre ++ a :: post
        /\ Forall (fun x => is_contact x = false) pre
        /\ is_target a = true /\ urljoin base (a_href a) = None).
Proof.
  split; [|split; [|split]].
  - intros pre a post u -> Ha Hpre Hres Hu. now apply scan_anchors_first_contact.
  - intros pre a post u -> Hall Hres Ha Hu Hpost. now apply scan_anchors_last_target.
  - split; [apply scan_anchors_none|apply scan_anchors_no_target].
  - split; [apply scan_anchors_raised|].
    intros (pre & a & post & -> & Hpre & Ha & Hu). now apply scan_anchors_abort.
Qed.

End LinkSelector.

Lemma scan_anchors_selection_witness :
  scan_anchors sample_urljoin "https://acme.io/" None
    [Anchor "Contact Us" "/contact"; Anchor "About" "/about"]
  = Ok (Some "https://acme.io/contact")
  /\ scan_anchors sample_urljoin "https://acme.io/" None
    [Anchor "About" "/about"; Anchor "Contact Us" "/contact"]
  = Ok (Some "https://acme.io/contact").
Proof.
  split.
  - apply (proj1 (scan_anchors_selection sample_urljoin "https://acme.io/" _)
             [] (Anchor "Contact Us" "/contact") [Anchor "About" "/about"]);
      [reflexivity|reflexivity|constructor|constructor|reflexivity].
  - apply (proj1 (scan_anchors_selection sample_urljoin "https://acme.io/" _)
             [Anchor "About" "/about"] (Anchor "Contact Us" "/contact") []);
      [reflexivity|reflexivity| | |reflexivity].
    + constructor; [reflexivity|constructor].
    + constructor; [|constructor]. intros _. now exists "https://acme.io/about".
Defined.

(** C4, as the specification words it, fails: with the anchors
    [About -> //[about] and [Contact Us -> /contact], [urljoin] raises on
    the first href, the scan raises, and the contact link is not
    selected. *)
Lemma contact_always_selected_counterexample :
  ~ contact_always_selected sample_urljoin.
Proof.
  intros H.
  destruct (H "https://acme.io/" [Anchor "About" "//[about"]
              (Anchor "Contact Us" "/contact") [])
    as (u & _ & Hscan).
  - reflexivity.
  - constructor; [reflexivity|constructor].
  - vm_compute in Hscan. discriminate.
Qed.

(** *** The extractor *)

Lemma order_elem_of (order : set_order) (X : gset string) (e : string) :
  e ∈ order X <-> e ∈ X.
Proof. rewrite (list_of_set_perm order X). apply elem_of_elements. Qed.

Lemma order_NoDup (order : set_order) (X : gset string) : NoDup (order X).
Proof. rewrite (list_of_set_perm order X). apply NoDup_elements. Qed.

Lemma order_to_set (order : set_order) (X : gset string) :
  list_to_set (order X) = X.
Proof. rewrite (list_of_set_perm order X). apply list_to_set_elements_L. Qed.


(** The loop adds the lowercased matches that pass the three tests. *)
Lemma extract_loop (site_name : string) (raw : list string) :
  forall found : gset string,
    (forall m, m ∈ raw -> is_Some (split "@" (lower m) !! 1)) ->
    for_each raw found (fun email found =>
      let email := lower email in
      if endswith_any BAD_EXTENSIONS email then ret found
      else if 50 <? String.length email then ret found
      else
        email_domains <- py_index (split "@" email) 1 ;;
        if contains site_name email_domains
        then ret ({[ email ]} ∪ found)
        else ret found)
    = ([], Ok (found ∪ list_to_set (List.filter (kept site_name) (map lower raw)))).
Proof.
  induction raw as [|m raw IH]; intros found Hat.
  - cbn. unfold ret. do 2 f_equal. set_solver.
  - cbn [for_each map List.filter]. cbn zeta. unfold kept at 1.
    assert (Hraw : forall m', m' ∈ raw -> is_Some (split "@" (lower m') !! 1)).
    { intros m' Hm'. apply Hat. now right. }
    destruct (endswith_any BAD_EXTENSIONS (lower m)); cbn [negb andb].
    { rewrite bind_ret_l. now apply IH. }
    rewrite Nat.leb_antisym.
    destruct (50 <? String.length (lower m)); cbn [negb andb].
    { rewrite bind_ret_l. now apply IH. }
    destruct (Hat m) as [d Hd]; [now left|].
    unfold py_index. rewrite Hd, bind_ret_l.
    destruct (contains site_name d); rewrite bind_ret_l, (IH _ Hraw).
    + f_equal. f_equal. rewrite list_to_set_cons. set_solver.
    + reflexivity.
Qed.

Lemma raw_emails_have_at (html m : string) :
  m ∈ raw_emails html -> is_Some (split "@" (lower m) !! 1).
Proof.
  intros H. destruct (findall_email_shape _ _ H) as (loc & d & -> & Hloc & Hd).
  exists (lower d). rewrite lower_app.
  change (lower ("@" +:+ d)) with ("@" +:+ lower d).
  apply split_address; now apply no_at_lower.
Qed.

(** The extractor returns, in the order of the set, the lowercased matches
    that pass the three tests; it performs no event and does not raise. *)
Lemma extract_valid_emails_eq (site_domain : string -> string)
    (order : set_order) (html current_url : string) :
  extract_valid_emails site_domain order html current_url =
  ([], Ok (order (list_to_set
                    (List.filter (kept (lower (site_domain current_url)))
                                 (map lower (raw_emails html)))))).
Proof.
  unfold extract_valid_emails. cbn zeta. fold (raw_emails html).
  rewrite extract_loop by apply raw_emails_have_at.
  unfold bind, ret. cbn [app]. do 3 f_equal. set_solver.
Qed.

Lemma filter_kept_elem_of (s e : string) (raw : list string) :
  e ∈ List.filter (kept s) (map lower raw) <->
  (exists m, m ∈ raw /\ e = lower m) /\ kept s e = true.
Proof.
  rewrite list_elem_of_In, filter_In, in_map_iff.
  split; intros [(m & H1 & H2) H3]; (split; [exists m|exact H3]).
  - now rewrite list_elem_of_In.
  - now rewrite <- list_elem_of_In.
Qed.

(** The decomposition of an address at its first [@] is unique. *)
Lemma split_first_at_unique (loc loc' d d' : string) :
  no_at loc -> no_at loc' ->
  loc +:+ "@" +:+ d = loc' +:+ "@" +:+ d' -> loc = loc' /\ d = d'.
Proof.
  unfold no_at. revert loc'.
  induction loc as [|c loc IH]; intros [|c' loc'] Hl Hl' H; cbn in *.
  - injection H as ->. now split.
  - injection H as <- _. discriminate.
  - injection H as -> _. discriminate.
  - injection H as -> H. apply andb_true_iff in Hl as [_ Hl].
    apply andb_true_iff in Hl' as [_ Hl'].
    destruct (IH loc' Hl Hl' H) as [-> ->]. now split.
Qed.

(** On a lowercased match [loc@d], the third test reads the whole of [d]. *)
Lemma kept_address (s html m loc d : string) :
  m ∈ raw_emails html -> lower m = loc +:+ "@" +:+ d -> no_at loc ->
  kept s (lower m) =
  negb (endswith_any BAD_EXTENSIONS (lower m))
  && (String.length (lower m) <=? 50) && contains s d.
Proof.
  intros Hm He Hloc. unfold kept.
  destruct (findall_email_shape _ _ Hm) as (loc0 & d0 & -> & Hloc0 & Hd0).
  rewrite lower_app in He. change (lower ("@" +:+ d0)) with ("@" +:+ lower d0) in He.
  destruct (split_first_at_unique _ _ _ _ (no_at_lower _ Hloc0) Hloc He) as [<- <-].
  rewrite lower_app. change (lower ("@" +:+ d0)) with ("@" +:+ lower d0).
  rewrite split_address by now apply no_at_lower. reflexivity.
Qed.

(** C9. Extractor determinism. Two runs on the same page and URL return
    the same set of addresses, whatever order each run lists its set in:
    the two lists have the same elements, each once. *)
Theorem extract_valid_emails_same_set (site_domain : string -> string)
    (order1 order2 : set_order) (html current_url : string) :
  exists l1 l2,
    extract_valid_emails site_domain order1 html current_url = ([], Ok l1)
    /\ extract_valid_emails site_domain order2 html current_url = ([], Ok l2)
    /\ list_to_set l1 =@{gset string} list_to_set l2
    /\ l1 ≡ₚ l2.
Proof.
  rewrite !extract_valid_emails_eq. eexists. eexists.
  split; [reflexivity|]. split; [reflexivity|]. split.
  - now rewrite !order_to_set.
  - now rewrite (list_of_set_perm order1 _), (list_of_set_perm order2 _).
Qed.






(** *** The site scraper *)

(** C3. Site Scraper. An absent, missing or empty URL gives [None] and no
    network call. A transport error on the homepage gives [None] after that
    one request: no secondary page is fetched. When candidates were found
    and the first one fails MX validation, the result is [None], the value
    also returned when no candidate was found; only the printed notice
    tells the two apart. *)
Theorem scrape_sync_email_absence (L : libs) (W : world) :
  (forall website_url,
     absent_url website_url = true ->
     _scrape_sync_email L W website_url = ([], Ok None))
  /\ (forall u,
     u <> "" -> site_get W 0 u = None ->
     _scrape_sync_email L W (UrlStr u) = ([HttpGet u []], Ok None))
  /\ (forall u resp t candidate rest,
     u <> "" -> site_get W 0 u = Some resp ->
     collect_candidates L W (text resp) (url resp) = (t, Ok (candidate :: rest)) ->
     outcome (check_mx_records (dns W) candidate) = Ok false ->
     _scrape_sync_email L W (UrlStr u) =
     (HttpGet u [] :: t ++ events (check_mx_records (dns W) candidate)
        ++ [Printed (SkippedBadMX candidate)],
      Ok None))
  /\ (forall u resp t,
     u <> "" -> site_get W 0 u = Some resp ->
     collect_candidates L W (text resp) (url resp) = (t, Ok []) ->
     _scrape_sync_email L W (UrlStr u) = (HttpGet u [] :: t, Ok None)).
Proof.
  repeat split.
  - intros website_url H. unfold _scrape_sync_email. now rewrite H.
  - intros u Hu Hget. unfold _scrape_sync_email, session_get.
    cbn [absent_url url_text]. apply String.eqb_neq in Hu. rewrite Hu, Hget.
    reflexivity.
  - intros u resp t candidate rest Hu Hget Hcol Hmx.
    unfold _scrape_sync_email, session_get.
    cbn [absent_url url_text]. apply String.eqb_neq in Hu. rewrite Hu, Hget.
    cbn [emit bind ret try_except app]. rewrite Hcol. cbn [bind].
    destruct (check_mx_records (dns W) candidate) as [tm rm].
    cbn [outcome snd] in Hmx. subst rm.
    cbn [bind emit ret try_except app events fst].
    rewrite ?app_nil_r, <- ?app_assoc. reflexivity.
  - intros u resp t Hu Hget Hcol.
    unfold _scrape_sync_email, session_get.
    cbn [absent_url url_text]. apply String.eqb_neq in Hu. rewrite Hu, Hget.
    cbn [emit bind ret try_except app]. rewrite Hcol.
    cbn [bind emit ret try_except app]. rewrite ?app_nil_r. reflexivity.
Qed.

Lemma scrape_sync_email_absence_witness :
  _scrape_sync_email sample_libs sample_world (UrlStr "http://acme.io") =
  ([HttpGet "http://acme.io" []; DnsResolveMX "acme.io";
    Printed (SkippedBadMX "info@acme.io")],
   Ok None).
Proof.
  apply (proj1 (proj2 (proj2 (scrape_sync_email_absence sample_libs sample_world)))
           "http://acme.io"
           (Response 200 None "mail info@acme.io" "https://acme.io/")
           [] "info@acme.io" []).
  - discriminate.
  - reflexivity.
  - vm_compute. reflexivity.
  - reflexivity.
Defined.

(** * Further properties of the code *)

(** ** [clean_name] *)

Lemma all_chars_filter (q : ascii -> bool) (s : string) :
  all_chars q (filter_chars q s) = true.
Proof.
  induction s as [|c s IH]; [reflexivity|]. cbn [filter_chars].
  destruct (q c) eqn:E; [|exact IH]. cbn [all_chars]. now rewrite E, IH.
Qed.

Lemma sub_from_length (r : Re.regex) (s : string) :
  forall skip prev,
    String.length (Re.sub_from r "" skip prev s) <= String.length s.
Proof.
  induction s as [|c s IH]; intros skip prev; [reflexivity|].
  cbn [Re.sub_from String.length]. destruct skip as [|k].
  - destruct (Re.match_at r prev (String c s)) as [[|n]|];
      cbn [String.append String.length];
      try (specialize (IH 0 (Some c)); lia).
    specialize (IH n (Some c)). lia.
  - specialize (IH k (Some c)). lia.
Qed.

Lemma lower_length (s : string) : String.length (lower s) = String.length s.
Proof. induction s as [|c s IH]; [reflexivity|]. cbn. now rewrite IH. Qed.

(** Deleting matches leaves no more characters of a kind than there
    were. *)
Lemma filter_sub_length (r : Re.regex) (p : ascii -> bool) (s : string) :
  forall skip prev,
    String.length (filter_chars p (Re.sub_from r "" skip prev s))
    <= String.length (filter_chars p s).
Proof.
  induction s as [|c s IH]; intros skip prev; [reflexivity|].
  cbn [Re.sub_from filter_chars]. destruct skip as [|k].
  - destruct (Re.match_at r prev (String c s)) as [[|n]|];
      cbn [String.append filter_chars];
      destruct (p c); cbn [String.length];
      try (specialize (IH 0 (Some c)); lia);
      specialize (IH n (Some c)); lia.
  - specialize (IH k (Some c)). destruct (p c); cbn [String.length]; lia.
Qed.

Lemma filter_alnum_count (s : string) :
  String.length
    (filter_chars (fun c => negb (negb (is_lower c || is_digit c))) s)
  = count_alnum s.
Proof.
  induction s as [|c s IH]; [reflexivity|]. cbn [filter_chars count_alnum].
  destruct (is_lower c || is_digit c); cbn [negb String.length]; now rewrite IH.
Qed.

(** X1. [clean_name] raises exactly on a truthy value that is not a
    string. What it returns consists of lowercase letters and digits only
    and is never longer than the name it was given. *)
Theorem clean_name_shape (U : unicode) :
  (forall v, outcome (clean_name U v) = Raised <->
             truthy v = true /\ is_str v = false)
  /\ (forall v out, outcome (clean_name U v) = Ok out ->
        all_chars (fun c => is_lower c || is_digit c) out = true)
  /\ (forall s out, outcome (clean_name U (PStr s)) = Ok out ->
        String.length out <= String.length s).
Proof.
  split; [|split].
  - intros v. unfold clean_name.
    destruct v as [|b|nz|s|l|d]; cbn [truthy is_str negb].
    + split; [discriminate|intros [H _]; discriminate].
    + destruct b; cbn; split; try discriminate; intuition congruence.
    + destruct nz; cbn; split; try discriminate; intuition congruence.
    + destruct (negb (String.eqb s "")); cbn; split; try discriminate;
        intuition congruence.
    + destruct (negb (bool_decide (l = []))); cbn; split; try discriminate;
        intuition congruence.
    + destruct (negb (bool_decide (d = []))); cbn; split; try discriminate;
        intuition congruence.
  - intros v out. unfold clean_name.
    destruct (negb (truthy v)); [intros [= <-]; reflexivity|].
    destruct v; try discriminate. cbn [outcome snd ret]. intros [= <-].
    unfold Re.sub, NON_ALNUM. rewrite sub_cls.
    eapply all_chars_impl; [|apply all_chars_filter].
    intros c Hc. now apply negb_true_iff, negb_false_iff in Hc.
  - intros s out. unfold clean_name.
    destruct (negb (truthy (PStr s))); [intros [= <-]; cbn; lia|].
    cbn [outcome snd ret]. intros [= <-]. unfold Re.sub, NON_ALNUM.
    rewrite sub_cls.
    etransitivity; [apply filter_sub_length|].
    rewrite filter_alnum_count. apply lower_alnum_bound.
Qed.

Lemma clean_name_shape_witness :
  all_chars (fun c => is_lower c || is_digit c) "thecocacola" = true
  /\ String.length "thecocacola" <= String.length "The Coca-Cola Company, Inc.".
Proof.
  split.
  - apply (proj1 (proj2 (clean_name_shape sample_unicode))
             (PStr "The Coca-Cola Company, Inc.") "thecocacola").
    vm_compute. reflexivity.
  - apply (proj2 (proj2 (clean_name_shape sample_unicode))
             "The Coca-Cola Company, Inc." "thecocacola").
    vm_compute. reflexivity.
Defined.


(** ** [_sync_clearbit] *)

(** An item the matcher cannot read makes the loop raise, before any
    notice. *)
Lemma match_items_unreadable (U : unicode) (company_name : pyval) (q : string)
    (item : pyval) (rest : list pyval) :
  candidate U item = None ->
  match_items U company_name q (item :: rest) = ([], Raised).
Proof.
  unfold candidate. destruct item as [| | | | |fields]; try reflexivity.
  cbn [match_items py_get]. rewrite !bind_ret_l.
  destruct (default (PStr "") (dict_lookup "domain" fields)) as [| | |dom| |];
    rewrite (M_eq (clean_name U _)), clean_name_events;
    destruct (outcome (clean_name U _)); try reflexivity.
  discriminate.
Qed.

Lemma match_items_poisoned (U : unicode) (company_name : pyval) (q : string) :
  forall i items item,
    items !! i = Some item -> candidate U item = None ->
    (forall j, j < i -> exists item' d' n',
        items !! j = Some item' /\ candidate U item' = Some (d', n')
        /\ rule1 q d' || rule2 q n' = false) ->
    match_items U company_name q items = ([], Raised).
Proof.
  induction i as [|i IH]; intros items item Hi Hc Hbefore.
  - destruct items as [|x rest]; [discriminate|]. injection Hi as ->.
    now apply match_items_unreadable.
  - destruct items as [|x rest]; [discriminate|].
    destruct (Hbefore 0) as (x' & d' & n' & Hx & Hc' & Hm'); [lia|].
    injection Hx as <-. rewrite (match_items_step _ _ _ _ _ _ _ Hc').
    apply orb_false_iff in Hm' as [-> ->].
    apply (IH rest item Hi Hc).
    intros j Hj. destruct (Hbefore (S j)) as (y & dy & ny & Hy & Hrest); [lia|].
    now exists y, dy, ny.
Qed.

(** X3. A suggestion without a display name matches every company name.
    When the first item of the answer has a string domain and a missing,
    [null] or empty name, rule 2 holds whatever the query is, and the
    client returns that item's domain. *)
Theorem nameless_suggestion_matches (U : unicode) (api : pyval -> option response)
    (name : pyval) (r : response) (fields : list (string * pyval))
    (rest : list pyval) (q d : string) :
  api name = Some r -> status_code r = 200%Z ->
  json r = Some (PList (PDict fields :: rest)) ->
  outcome (clean_name U name) = Ok q ->
  dict_lookup "domain" fields = Some (PStr d) ->
  truthy (default (PStr "") (dict_lookup "name" fields)) = false ->
  outcome (_sync_clearbit U api name) = Ok (Some ("https://" +:+ d)).
Proof.
  intros Hapi Hst Hjs Hq Hd Hn.
  assert (Hc : candidate U (PDict fields) = Some (d, "")).
  { unfold candidate, clean_name. now rewrite Hd, Hn. }
  rewrite (sync_clearbit_200 _ _ _ _ _ _ Hapi Hst Hjs Hq).
  change (firstn 3 (PDict fields :: rest)) with (PDict fields :: firstn 2 rest).
  rewrite (match_items_step _ _ _ _ _ _ _ Hc).
  assert (H2 : rule2 q "" = true).
  { unfold rule2. rewrite (contains_empty q). apply orb_true_r. }
  rewrite H2. now destruct (rule1 q d).
Qed.

Lemma nameless_suggestion_matches_witness :
  outcome (_sync_clearbit sample_unicode (fun _ => Some acme_answer) (PStr "Zenith Ltd"))
  = Ok (Some "https://acme.io").
Proof.
  apply ((nameless_suggestion_matches sample_unicode) (fun _ => Some acme_answer)
           (PStr "Zenith Ltd") acme_answer [("domain", PStr "acme.io")]
           [PDict [("domain", PStr "other.com")]] "zenith" "acme.io");
    reflexivity.
Defined.

(** X4. An unreadable item hides the suggestions after it. When one of the
    first three items is not an object with a string domain and a string
    or empty name, and no item before it matches, the loop raises, the
    client swallows the exception and returns [None], whatever the later
    items are. *)
Theorem unreadable_item_gives_none (U : unicode) (api : pyval -> option response)
    (name : pyval) (r : response) (items : list pyval) (q : string)
    (i : nat) (item : pyval) :
  api name = Some r -> status_code r = 200%Z -> json r = Some (PList items) ->
  outcome (clean_name U name) = Ok q ->
  i < 3 -> items !! i = Some item -> candidate U item = None ->
  (forall j, j < i -> exists item' d' n',
      items !! j = Some item' /\ candidate U item' = Some (d', n')
      /\ rule1 q d' || rule2 q n' = false) ->
  _sync_clearbit U api name = ([HttpGet SUGGEST_URL [("query", name)]], Ok None).
Proof.
  intros Hapi Hst Hjs Hq Hi Hitem Hc Hbefore.
  rewrite (sync_clearbit_200 _ _ _ _ _ _ Hapi Hst Hjs Hq).
  rewrite (match_items_poisoned U name q i (firstn 3 items) item); [reflexivity| |exact Hc|].
  - now rewrite lookup_take_lt.
  - intros j Hj. destruct (Hbefore j Hj) as (y & dy & ny & Hy & Hrest).
    exists y, dy, ny. split; [|exact Hrest]. rewrite lookup_take_lt; [exact Hy|lia].
Qed.

Lemma unreadable_item_gives_none_witness :
  _sync_clearbit sample_unicode (fun _ => Some poisoned_answer) (PStr "Acme") =
  ([HttpGet SUGGEST_URL [("query", PStr "Acme")]], Ok None).
Proof.
  apply ((unreadable_item_gives_none sample_unicode) (fun _ => Some poisoned_answer)
           (PStr "Acme") poisoned_answer
           [PDict [("name", PStr "Other"); ("domain", PNone)];
            PDict [("name", PStr "Acme"); ("domain", PStr "acme.io")]]
           "acme" 0
           (PDict [("name", PStr "Other"); ("domain", PNone)]));
    try reflexivity.
  - lia.
  - intros j Hj. lia.
Defined.

(** What the loop returns and prints go together. *)
Lemma match_items_result (U : unicode) (company_name : pyval) (q : string)
    (items : list pyval) :
  match outcome (match_items U company_name q items) with
  | Ok (Some u) =>
      exists i item d n,
        items !! i = Some item /\ candidate U item = Some (d, n)
        /\ rule1 q d || rule2 q n = true /\ u = "https://" +:+ d
        /\ (events (match_items U company_name q items)
              = [Printed (ApiMatch company_name d)]
            \/ events (match_items U company_name q items)
              = [Printed (ApiNameMatch company_name d)])
  | _ => events (match_items U company_name q items) = []
  end.
Proof.
  induction items as [|item rest IH]; [reflexivity|].
  destruct (candidate U item) as [[d n]|] eqn:Hc.
  - rewrite (match_items_step _ _ _ _ _ _ _ Hc).
    destruct (rule1 q d) eqn:H1.
    + cbn. exists 0, item, d, n. rewrite H1. repeat split; auto.
    + destruct (rule2 q n) eqn:H2.
      * cbn. exists 0, item, d, n. rewrite H1, H2. repeat split; auto.
      * destruct (outcome (match_items U company_name q rest)) as [[u|]|];
          try exact IH.
        destruct IH as (i & x & dx & nx & Hi & Hx & Hm & Hu & Hev).
        exists (S i), x, dx, nx. repeat split; assumption.
  - now rewrite (match_items_unreadable _ _ _ _ _ Hc).
Qed.

(** X5. One request per lookup, and a URL only from the suggestions. The
    client performs exactly one HTTP request, to the suggestion endpoint
    with the name as query, and prints at most one notice. Whenever it
    returns a URL, the answer was a 200 carrying a list, and the URL is
    [https://] followed by the domain of one of its first three items, the
    one the notice names. *)
Theorem sync_clearbit_trace (U : unicode) (api : pyval -> option response) (name : pyval) :
  exists notices,
    events (_sync_clearbit U api name)
    = HttpGet SUGGEST_URL [("query", name)] :: notices
    /\ match outcome (_sync_clearbit U api name) with
       | Ok (Some u) =>
           exists r items i item d n,
             api name = Some r /\ status_code r = 200%Z
             /\ json r = Some (PList items)
             /\ i < 3 /\ items !! i = Some item
             /\ candidate U item = Some (d, n)
             /\ u = "https://" +:+ d
             /\ (notices = [Printed (ApiMatch name d)]
                 \/ notices = [Printed (ApiNameMatch name d)])
       | _ => notices = []
       end.
Proof.
  unfold _sync_clearbit, session_get.
  destruct (api name) as [r|]; [|exists []; split; reflexivity].
  cbn [emit bind ret app].
  destruct (status_code r =? 200)%Z eqn:Hst; [|exists []; split; reflexivity].
  apply Z.eqb_eq in Hst. unfold response_json.
  destruct (json r) as [data|] eqn:Hjs; [|exists []; split; reflexivity].
  rewrite bind_ret_l.
  destruct (truthy data) eqn:Ht; [|exists []; split; reflexivity].
  rewrite (M_eq (clean_name U name)), clean_name_events.
  destruct (outcome (clean_name U name)) as [q|]; [|exists []; split; reflexivity].
  change (@pair (list event) (result string) [] (Ok q)) with (ret q).
  rewrite bind_ret_l.
  destruct data as [| | |s|its|]; try (exists []; split; reflexivity).
  - cbn [first_three]. rewrite bind_ret_l.
    pose proof (match_items_result U name q
      (map (fun c => PStr (String c "")) (firstn 3 (String.list_ascii_of_string s))))
      as Hres.
    destruct (match_items U name q _) as [t [[u|]|]]; cbn in Hres |- *.
    + destruct Hres as (i & item & d & n & Hi & Hc & _).
      exfalso. apply list_elem_of_lookup_2 in Hi.
      apply list_elem_of_In, in_map_iff in Hi as (c & <- & _). discriminate.
    + subst t. exists []. split; reflexivity.
    + subst t. exists []. split; reflexivity.
  - cbn [first_three]. rewrite bind_ret_l.
    pose proof (match_items_result U name q (firstn 3 its)) as Hres.
    destruct (match_items U name q (firstn 3 its)) as [t [[u|]|]]; cbn in Hres |- *.
    + destruct Hres as (i & item & d & n & Hi & Hc & _ & Hu & Hev).
      apply lookup_take_Some in Hi as [Hi Hlt].
      exists t. split; [now rewrite app_nil_r|].
      exists r, its, i, item, d, n. repeat split; assumption.
    + subst t. exists []. split; reflexivity.
    + subst t. exists []. split; reflexivity.
Qed.

(** X6. Suggestions after the third are never used: the client gives the
    same result on an answer and on the answer cut to its first three
    items. *)
Theorem sync_clearbit_first_three_only (U : unicode) (api api' : pyval -> option response)
    (name : pyval) (r r' : response) (items : list pyval) :
  api name = Some r -> api' name = Some r' ->
  status_code r' = status_code r ->
  json r = Some (PList items) -> json r' = Some (PList (firstn 3 items)) ->
  _sync_clearbit U api' name = _sync_clearbit U api name.
Proof.
  intros Hapi Hapi' Hst Hjs Hjs'. unfold _sync_clearbit, session_get.
  rewrite Hapi, Hapi'. cbn [emit bind ret app]. rewrite Hst.
  destruct (status_code r =? 200)%Z; [|reflexivity].
  unfold response_json. rewrite Hjs, Hjs', !bind_ret_l.
  assert (Ht : truthy (PList (firstn 3 items)) = truthy (PList items)).
  { now destruct items. }
  rewrite Ht. destruct (truthy (PList items)); [|reflexivity].
  cbn [first_three]. rewrite take_take. reflexivity.
Qed.

Lemma sync_clearbit_first_three_only_witness :
  _sync_clearbit sample_unicode (fun _ => Some cut_answer) (PStr "Acme") =
  _sync_clearbit sample_unicode (fun _ => Some long_answer) (PStr "Acme")
  /\ _sync_clearbit sample_unicode (fun _ => Some long_answer) (PStr "Acme") =
     ([HttpGet SUGGEST_URL [("query", PStr "Acme")]], Ok None).
Proof.
  split; [|vm_compute; reflexivity].
  apply ((sync_clearbit_first_three_only sample_unicode)
           (fun _ => Some long_answer) (fun _ => Some cut_answer)
           (PStr "Acme") long_answer cut_answer
           [PDict [("name", PStr "Alpha"); ("domain", PStr "alpha.com")];
            PDict [("name", PStr "Beta"); ("domain", PStr "beta.com")];
            PDict [("name", PStr "Gamma"); ("domain", PStr "gamma.com")];
            PDict [("name", PStr "Acme"); ("domain", PStr "acme.io")]]);
    reflexivity.
Defined.

(** ** [check_mx_records] *)

(** X7. Without an [@] there is nothing to query: the validator answers
    [False] and sends no DNS query. *)
Theorem check_mx_records_no_at (dns : string -> dns_result) (email : string) :
  no_at email -> check_mx_records dns email = ([], Ok false).
Proof.
  intros H. unfold check_mx_records, py_index.
  now rewrite (split_no_at _ H).
Qed.

Lemma check_mx_records_no_at_witness :
  check_mx_records (fun _ => DnsAnswer ["mx.acme.io"]) "acme.io" = ([], Ok false).
Proof. apply check_mx_records_no_at. reflexivity. Defined.

(** X8. The validator reads the text between the first and the second
    [@]: what follows a second [@] is ignored, so [loc@mid@tail] is
    validated as [loc@mid] is. *)
Theorem check_mx_records_second_at (dns : string -> dns_result)
    (loc mid tail : string) :
  no_at loc -> no_at mid ->
  check_mx_records dns (loc +:+ "@" +:+ mid +:+ "@" +:+ tail)
  = check_mx_records dns (loc +:+ "@" +:+ mid).
Proof.
  intros Hloc Hmid. unfold check_mx_records.
  rewrite (split_at_first loc (mid +:+ "@" +:+ tail) Hloc).
  rewrite (split_at_first mid tail Hmid).
  rewrite (split_at_first loc mid Hloc), (split_no_at _ Hmid).
  reflexivity.
Qed.

Lemma check_mx_records_second_at_witness :
  check_mx_records (fun d => if String.eqb d "acme.io" then DnsAnswer ["mx"]
                             else DnsError NXDOMAIN) "jane@acme.io@nowhere"
  = ([DnsResolveMX "acme.io"], Ok true).
Proof.
  rewrite (check_mx_records_second_at _ "jane" "acme.io" "nowhere");
    reflexivity.
Defined.

(** ** [extract_valid_emails] *)

Lemma take_is_prefix (s : string) : forall n, exists post, s = take n s +:+ post.
Proof.
  unfold take. induction s as [|c s IH]; intros [|n]; cbn.
  - now exists "".
  - now exists "".
  - now exists (String c s).
  - destruct (IH n) as [post Hpost]. exists post. now rewrite <- Hpost.
Qed.

(** A match is a piece of the text searched. *)
Lemma findall_substring (r : Re.regex) (s : string) :
  forall skip prev m,
    m ∈ Re.findall_from r skip prev s -> substring_of m s.
Proof.
  induction s as [|c s IH]; intros skip prev m H; cbn [Re.findall_from] in H.
  - now apply not_elem_of_nil in H.
  - assert (Hrec : forall k p, m ∈ Re.findall_from r k p s ->
                               substring_of m (String c s)).
    { intros k p Hm. destruct (IH _ _ _ Hm) as (pre & post & ->).
      now exists (String c pre), post. }
    destruct skip as [|k]; [|now apply Hrec in H].
    destruct (Re.match_at r prev (String c s)) as [[|n]|];
      try (now apply Hrec in H).
    apply elem_of_cons in H as [->|H]; [|now apply Hrec in H].
    destruct (take_is_prefix (String c s) (S n)) as [post Hpost].
    now exists "", post.
Qed.

Lemma replace_absent (old new s : string) :
  contains old s = false -> replace old new s = s.
Proof.
  unfold replace. induction s as [|c s IH]; [reflexivity|].
  cbn [contains replace_from]. intros H.
  apply orb_false_iff in H as [H1 H2]. rewrite H1. now rewrite (IH H2).
Qed.

Lemma no_at_substring (m s : string) : substring_of m s -> no_at s -> no_at m.
Proof.
  unfold no_at. intros (pre & post & ->). rewrite !all_chars_app.
  intros H. apply andb_true_iff in H as [_ H].
  now apply andb_true_iff in H as [H _].
Qed.

Lemma address_has_at (loc d : string) : ~ no_at (loc +:+ "@" +:+ d).
Proof.
  unfold no_at. rewrite all_chars_app. intros H.
  apply andb_true_iff in H as [_ H]. discriminate.
Qed.

Lemma order_empty (order : set_order) : order ∅ = [].
Proof. apply Permutation_nil_r. rewrite (list_of_set_perm order ∅). now rewrite elements_empty. Qed.

(** X9. The extractor invents nothing and repeats nothing: every address
    it returns is the lowercase form of a piece of the de-obfuscated page,
    and no address is listed twice. *)
Theorem extract_valid_emails_sound (site_domain : string -> string)
    (order : set_order) (html current_url : string) :
  exists l,
    extract_valid_emails site_domain order html current_url = ([], Ok l)
    /\ NoDup l
    /\ forall e, e ∈ l ->
         exists m, substring_of m (deobfuscate html) /\ e = lower m.
Proof.
  rewrite extract_valid_emails_eq. eexists. split; [reflexivity|].
  split; [apply order_NoDup|].
  intros e He.
  apply order_elem_of, elem_of_list_to_set, filter_kept_elem_of in He
    as [(m & Hm & ->) _].
  exists m. split; [|reflexivity].
  exact (findall_substring _ _ _ _ _ Hm).
Qed.

Lemma extract_valid_emails_sound_witness :
  extract_valid_emails sample_site_domain sample_order
    "Jane@acme.io or jane@ACME.io" "https://acme.io/"
  = ([], Ok ["jane@acme.io"]).
Proof.
  destruct (extract_valid_emails_sound sample_site_domain sample_order
              "Jane@acme.io or jane@ACME.io" "https://acme.io/")
    as (l & Hl & _ & _).
  rewrite Hl. vm_compute in Hl. injection Hl as <-. reflexivity.
Defined.

(** X10. A URL without a registrable label switches the domain filter
    off: when [tldextract] finds no domain label in the page URL, every
    match that passes the extension and length tests is returned, whatever
    its domain. *)
Theorem extract_valid_emails_empty_label (site_domain : string -> string)
    (order : set_order) (html current_url : string) :
  site_domain current_url = "" ->
  exists l,
    extract_valid_emails site_domain order html current_url = ([], Ok l)
    /\ forall e, e ∈ l <->
         exists m, m ∈ raw_emails html /\ e = lower m
                   /\ endswith_any BAD_EXTENSIONS e = false
                   /\ String.length e <= 50.
Proof.
  intros Hsite. rewrite extract_valid_emails_eq, Hsite. eexists.
  split; [reflexivity|]. intros e.
  rewrite order_elem_of, elem_of_list_to_set, filter_kept_elem_of.
  split.
  - intros [(m & Hm & ->) Hk].
    destruct (findall_email_shape _ _ Hm) as (loc & d & E & Hloc & Hd).
    assert (El : lower m = lower loc +:+ "@" +:+ lower d).
    { rewrite E, lower_app. reflexivity. }
    rewrite (kept_address _ _ _ _ _ Hm El (no_at_lower _ Hloc)) in Hk.
    apply andb_true_iff in Hk as [Hk _]. apply andb_true_iff in Hk as [Hb Hlen].
    exists m. repeat split; [exact Hm| |].
    + now apply negb_true_iff in Hb.
    + now apply Nat.leb_le in Hlen.
  - intros (m & Hm & -> & Hb & Hlen). split; [now exists m|].
    destruct (findall_email_shape _ _ Hm) as (loc & d & E & Hloc & Hd).
    assert (El : lower m = lower loc +:+ "@" +:+ lower d).
    { rewrite E, lower_app. reflexivity. }
    rewrite (kept_address _ _ _ _ _ Hm El (no_at_lower _ Hloc)), Hb.
    apply Nat.leb_le in Hlen. rewrite Hlen. apply contains_empty.
Qed.

Lemma extract_valid_emails_empty_label_witness :
  exists l,
    extract_valid_emails sample_site_domain sample_order
      "mail support@unrelated.com" "https://co.uk/" = ([], Ok l)
    /\ "support@unrelated.com" ∈ l.
Proof.
  destruct (extract_valid_emails_empty_label sample_site_domain sample_order
              "mail support@unrelated.com" "https://co.uk/" eq_refl)
    as (l & Hl & Hmem).
  exists l. split; [exact Hl|]. apply Hmem.
  exists "support@unrelated.com". repeat split.
  - vm_compute. now left.
  - vm_compute. lia.
Defined.

(** X11. A page with no [@] and none of the three spelled-out forms
    yields no candidate. *)
Theorem extract_valid_emails_no_at (site_domain : string -> string)
    (order : set_order) (html current_url : string) :
  no_at html ->
  contains " [at] " html = false -> contains "(at)" html = false ->
  contains " at " html = false ->
  extract_valid_emails site_domain order html current_url = ([], Ok []).
Proof.
  intros Hat H1 H2 H3. rewrite extract_valid_emails_eq.
  assert (Hraw : raw_emails html = []).
  { unfold raw_emails. rewrite (replace_absent _ _ _ H1), (replace_absent _ _ _ H2),
      (replace_absent _ _ _ H3).
    destruct (Re.findall EMAIL_REGEX html) as [|m ms] eqn:E; [reflexivity|].
    exfalso. assert (Hm : m ∈ Re.findall EMAIL_REGEX html) by (rewrite E; now left).
    destruct (findall_email_shape _ _ Hm) as (loc & d & -> & _ & _).
    apply (address_has_at loc d).
    exact (no_at_substring _ _ (findall_substring _ _ _ _ _ Hm) Hat). }
  rewrite Hraw. cbn [map List.filter list_to_set foldr].
  now rewrite order_empty.
Qed.

Lemma extract_valid_emails_no_at_witness :
  extract_valid_emails sample_site_domain sample_order
    "Welcome to Acme. Call us today." "https://acme.io/" = ([], Ok []).
Proof.
  apply extract_valid_emails_no_at; reflexivity.
Defined.

(** ** [_scrape_sync_email] *)

Lemma extract_valid_emails_extracted (site_domain : string -> string)
    (order : set_order) (html current_url : string) :
  extract_valid_emails site_domain order html current_url
  = ret (extracted site_domain order html current_url).
Proof. apply extract_valid_emails_eq. Qed.

Lemma check_mx_records_cases (dns : string -> dns_result) (email : string) :
  exists b, outcome (check_mx_records dns email) = Ok b
            /\ (events (check_mx_records dns email) = []
                \/ exists d, events (check_mx_records dns email) = [DnsResolveMX d]).
Proof.
  unfold check_mx_records, py_index, resolve_mx.
  destruct (split "@" email !! 1) as [domain|].
  - rewrite bind_ret_l. cbn [emit bind app].
    destruct (dns domain); cbn; eexists; (split; [reflexivity|right; now exists domain]).
  - cbn. exists false. split; [reflexivity|now left].
Qed.

(** The candidates: those of the homepage, or else those of the page the
    selected link leads to, read against the homepage's final URL. *)
Lemma collect_candidates_eq (L : libs) (W : world) (html final_url : string) :
  collect_candidates L W html final_url =
  let emails := extracted (site_domain L) (order L) html final_url in
  if bool_decide (emails = []) then
    match scan_anchors (urljoin L) final_url None (find_all_a_href L html) with
    | Ok target_link =>
        if truthy_url target_link then
          ([HttpGet (default "" target_link) []],
           Ok match site_get W 1 (default "" target_link) with
              | Some resp_contact =>
                  extracted (site_domain L) (order L) (text resp_contact) final_url
              | None => emails
              end)
        else ([], Ok emails)
    | Raised => ([], Raised)
    end
  else ([], Ok emails).
Proof.
  unfold collect_candidates. rewrite extract_valid_emails_extracted, bind_ret_l.
  cbn zeta. destruct (bool_decide _); [|reflexivity].
  destruct (scan_anchors _ _ _ _) as [target_link|]; [|reflexivity].
  unfold lift. cbn [bind app].
  destruct (truthy_url _); [|reflexivity].
  unfold session_get. destruct (site_get W 1 _) as [resp_contact|].
  - cbn [emit bind ret app try_except].
    rewrite extract_valid_emails_extracted. reflexivity.
  - reflexivity.
Qed.

Lemma collect_candidates_ok (L : libs) (W : world) (html final_url : string) :
  exists t r,
    collect_candidates L W html final_url = (t, r)
    /\ (t = [] \/ exists link, t = [HttpGet link []]).
Proof.
  rewrite collect_candidates_eq. cbn zeta.
  destruct (bool_decide _);
    [destruct (scan_anchors _ _ _ _) as [target_link|];
       [destruct (truthy_url _)|]|];
    eexists; eexists; (split; [reflexivity|]); eauto.
Qed.

(** The scrape of a non-empty URL, step by step. *)
Lemma scrape_sync_email_eq (L : libs) (W : world) (u : string) :
  u <> "" ->
  _scrape_sync_email L W (UrlStr u) =
  match site_get W 0 u with
  | None => ([HttpGet u []], Ok None)
  | Some resp =>
      (HttpGet u []
         :: events (collect_candidates L W (text resp) (url resp))
         ++ match outcome (collect_candidates L W (text resp) (url resp)) with
            | Ok emails => fst (validate_first (dns W) emails)
            | Raised => []
            end,
       Ok match outcome (collect_candidates L W (text resp) (url resp)) with
          | Ok emails => snd (validate_first (dns W) emails)
          | Raised => None
          end)
  end.
Proof.
  intros Hu. unfold _scrape_sync_email, session_get.
  cbn [absent_url url_text]. apply String.eqb_neq in Hu. rewrite Hu.
  destruct (site_get W 0 u) as [resp|]; [|reflexivity].
  cbn [emit bind ret try_except app].
  destruct (collect_candidates L W (text resp) (url resp)) as [t [emails|]].
  - cbn [bind events outcome fst snd].
    destruct emails as [|candidate rest].
    + cbn. now rewrite !app_nil_r.
    + unfold validate_first.
      destruct (check_mx_records_cases (dns W) candidate) as (b & Hb & _).
      destruct (check_mx_records (dns W) candidate) as [tm rm].
      cbn [outcome snd] in Hb. subst rm. cbn [outcome events fst snd bind].
      destruct b; cbn; now rewrite ?app_nil_r, <- ?app_assoc.
  - cbn. now rewrite !app_nil_r.
Qed.

Lemma http_requests_app (t1 t2 : list event) :
  http_requests (t1 ++ t2) = http_requests t1 + http_requests t2.
Proof. unfold http_requests. now rewrite List.filter_app, length_app. Qed.

Lemma dns_queries_app (t1 t2 : list event) :
  dns_queries (t1 ++ t2) = dns_queries t1 + dns_queries t2.
Proof. unfold dns_queries. now rewrite List.filter_app, length_app. Qed.

Lemma validate_first_counts (dns : string -> dns_result) (emails : list string) :
  http_requests (fst (validate_first dns emails)) = 0
  /\ dns_queries (fst (validate_first dns emails)) <= 1.
Proof.
  unfold validate_first. destruct emails as [|candidate rest]; [split; cbn; lia|].
  destruct (check_mx_records_cases dns candidate) as (b & Hb & [He|[d He]]);
    rewrite Hb; destruct b; cbn [fst]; rewrite ?http_requests_app, ?dns_queries_app, He;
    split; cbn; lia.
Qed.

(** X12. The scraper never raises, and one scrape costs at most two HTTP
    requests and at most one DNS query. *)
Theorem scrape_sync_email_budget (L : libs) (W : world) (website_url : url_arg) :
  outcome (_scrape_sync_email L W website_url) <> Raised
  /\ http_requests (events (_scrape_sync_email L W website_url)) <= 2
  /\ dns_queries (events (_scrape_sync_email L W website_url)) <= 1.
Proof.
  destruct (absent_url website_url) eqn:Habs.
  { unfold _scrape_sync_email. rewrite Habs. repeat split; [discriminate|cbn; lia..]. }
  destruct website_url as [| |u]; try discriminate.
  cbn [absent_url] in Habs. apply String.eqb_neq in Habs.
  rewrite (scrape_sync_email_eq L W u Habs).
  destruct (site_get W 0 u) as [resp|]; [|repeat split; [discriminate|cbn; lia..]].
  destruct (collect_candidates_ok L W (text resp) (url resp))
    as (t & r & Hcol & Ht).
  rewrite Hcol. cbn [events outcome fst snd].
  set (tv := match r with
             | Ok emails => fst (validate_first (dns W) emails)
             | Raised => []
             end).
  assert (Hv : http_requests tv = 0 /\ dns_queries tv <= 1).
  { subst tv. destruct r as [emails|]; [apply validate_first_counts|].
    split; cbn; lia. }
  destruct Hv as [Hh Hd].
  change (HttpGet u [] :: t ++ tv) with ([HttpGet u []] ++ t ++ tv).
  rewrite !http_requests_app, !dns_queries_app, Hh.
  repeat split; [discriminate| |];
    destruct Ht as [->|[link ->]]; cbn; lia.
Qed.

(** X13. Candidates on the homepage end the search: when the homepage
    yields at least one address, the scraper sends the homepage request
    only, validates the first address of the list, and returns it if the
    validation succeeds and [None] otherwise; the other addresses are not
    tried. *)
Theorem scrape_homepage_candidates (L : libs) (W : world) (u : string)
    (resp : response) (candidate : string) (rest : list string) :
  u <> "" -> site_get W 0 u = Some resp ->
  extracted (site_domain L) (order L) (text resp) (url resp) = candidate :: rest ->
  _scrape_sync_email L W (UrlStr u) =
  (HttpGet u [] :: fst (validate_first (dns W) [candidate]),
   Ok (snd (validate_first (dns W) [candidate]))).
Proof.
  intros Hu Hget Hex. rewrite (scrape_sync_email_eq L W u Hu), Hget.
  rewrite collect_candidates_eq. cbn zeta. rewrite Hex.
  rewrite bool_decide_eq_false_2 by discriminate. reflexivity.
Qed.

Lemma scrape_homepage_candidates_witness :
  _scrape_sync_email sample_libs
    (World (site_get sample_world) (fun _ => DnsAnswer ["mx.acme.io"]))
    (UrlStr "http://acme.io")
  = ([HttpGet "http://acme.io" []; DnsResolveMX "acme.io"],
     Ok (Some "info@acme.io")).
Proof.
  apply (scrape_homepage_candidates sample_libs
           (World (site_get sample_world) (fun _ => DnsAnswer ["mx.acme.io"]))
           "http://acme.io"
           (Response 200 None "mail info@acme.io" "https://acme.io/")
           "info@acme.io" []).
  - discriminate.
  - reflexivity.
  - vm_compute. reflexivity.
Defined.

(** X14. A homepage without candidates. When resolving a keyword link
    raises, or when no keyword link is found, the scraper returns [None]
    after the homepage request; with a link whose request fails it returns
    [None] after the two requests; with a link that is fetched, the
    candidates are those of the secondary page, filtered against the final
    URL of the homepage, not the URL of the link. *)
Theorem scrape_secondary_page (L : libs) (W : world) (u : string)
    (resp : response) :
  u <> "" -> site_get W 0 u = Some resp ->
  extracted (site_domain L) (order L) (text resp) (url resp) = [] ->
  let scan :=
    scan_anchors (urljoin L) (url resp) None (find_all_a_href L (text resp)) in
  (scan = Raised ->
   _scrape_sync_email L W (UrlStr u) = ([HttpGet u []], Ok None))
  /\ (forall target_link,
        scan = Ok target_link -> truthy_url target_link = false ->
        _scrape_sync_email L W (UrlStr u) = ([HttpGet u []], Ok None))
  /\ (forall link,
        scan = Ok (Some link) -> link <> "" -> site_get W 1 link = None ->
        _scrape_sync_email L W (UrlStr u)
        = ([HttpGet u []; HttpGet link []], Ok None))
  /\ (forall link resp_contact,
        scan = Ok (Some link) -> link <> "" ->
        site_get W 1 link = Some resp_contact ->
        let emails := extracted (site_domain L) (order L)
                        (text resp_contact) (url resp) in
        _scrape_sync_email L W (UrlStr u)
        = (HttpGet u [] :: HttpGet link [] :: fst (validate_first (dns W) emails),
           Ok (snd (validate_first (dns W) emails)))).
Proof.
  intros Hu Hget Hex scan.
  rewrite (scrape_sync_email_eq L W u Hu), Hget, collect_candidates_eq.
  cbn zeta. fold scan. rewrite Hex.
  rewrite bool_decide_eq_true_2 by reflexivity.
  split; [|split; [|split]].
  - intros Hs. rewrite Hs. reflexivity.
  - intros target_link Hs Ht. rewrite Hs, Ht. reflexivity.
  - intros link Hs Hne Hget1. rewrite Hs. cbn [truthy_url from_option id].
    apply String.eqb_neq in Hne. rewrite Hne, Hget1. reflexivity.
  - intros link resp_contact Hs Hne Hget1. rewrite Hs.
    cbn [truthy_url from_option id]. apply String.eqb_neq in Hne.
    rewrite Hne, Hget1. reflexivity.
Qed.

(** X15. The scraper returns only validated candidates: an address it
    returns is the first of the list extracted from the homepage, or from
    the secondary page when the homepage had none, always against the
    homepage's final URL, and the MX validation of that address answered
    [True]. *)
Theorem scrape_sync_email_sound (L : libs) (W : world)
    (website_url : url_arg) (email : string) :
  outcome (_scrape_sync_email L W website_url) = Ok (Some email) ->
  exists u resp html,
    website_url = UrlStr u /\ u <> "" /\ site_get W 0 u = Some resp
    /\ (html = text resp
        \/ extracted (site_domain L) (order L) (text resp) (url resp) = []
           /\ exists link resp_contact,
                site_get W 1 link = Some resp_contact
                /\ html = text resp_contact)
    /\ head (extracted (site_domain L) (order L) html (url resp)) = Some email
    /\ outcome (check_mx_records (dns W) email) = Ok true.
Proof.
  destruct (absent_url website_url) eqn:Habs.
  { unfold _scrape_sync_email. rewrite Habs. discriminate. }
  destruct website_url as [| |u]; try discriminate.
  cbn [absent_url] in Habs. apply String.eqb_neq in Habs.
  rewrite (scrape_sync_email_eq L W u Habs).
  destruct (site_get W 0 u) as [resp|] eqn:Hget; [|discriminate].
  rewrite collect_candidates_eq. cbn zeta.
  assert (Hval : forall emails,
    snd (validate_first (dns W) emails) = Some email ->
    head emails = Some email
    /\ outcome (check_mx_records (dns W) email) = Ok true).
  { intros [|c rest]; [discriminate|]. unfold validate_first.
    destruct (outcome (check_mx_records (dns W) c)) as [[|]|] eqn:E;
      try discriminate.
    intros [= ->]. now split. }
  destruct (bool_decide _) eqn:Hempty.
  - apply bool_decide_eq_true_1 in Hempty.
    destruct (scan_anchors _ _ _ _) as [target_link|]; [|discriminate].
    destruct (truthy_url _) eqn:Ht.
    + cbn [outcome snd].
      destruct (site_get W 1 _) as [resp_contact|] eqn:Hget1.
      * intros [= H]. destruct (Hval _ H) as [Hh Hmx].
        exists u, resp, (text resp_contact). repeat split; try assumption.
        right. split; [exact Hempty|]. eauto.
      * rewrite Hempty. discriminate.
    + cbn [outcome snd]. rewrite Hempty. discriminate.
  - cbn [outcome snd]. intros [= H]. destruct (Hval _ H) as [Hh Hmx].
    exists u, resp, (text resp). repeat split; try assumption. now left.
Qed.

Lemma scrape_sync_email_sound_witness :
  outcome (check_mx_records (fun _ => DnsAnswer ["mx.acme.io"]) "info@acme.io")
  = Ok true.
Proof.
  destruct (scrape_sync_email_sound sample_libs
              (World (site_get sample_world) (fun _ => DnsAnswer ["mx.acme.io"]))
              (UrlStr "http://acme.io") "info@acme.io")
    as (u & resp & html & _ & _ & _ & _ & _ & Hmx).
  - vm_compute. reflexivity.
  - exact Hmx.
Defined.

Lemma scrape_secondary_page_witness :
  _scrape_sync_email linked_libs linked_world (UrlStr "http://acme.io") =
  ([HttpGet "http://acme.io" []; HttpGet "https://acme.io/contact" [];
    DnsResolveMX "acme.io"],
   Ok (Some "sales@acme.io")).
Proof.
  apply (proj2 (proj2 (proj2 (scrape_secondary_page linked_libs linked_world
                         "http://acme.io"
                         (Response 200 None "Welcome" "https://acme.io/")
                         ltac:(discriminate) eq_refl eq_refl)))
           "https://acme.io/contact"
           (Response 200 None "mail sales@acme.io" "https://acme.io/contact")).
  - reflexivity.
  - discriminate.
  - reflexivity.
Defined.

(** The contact page is never requested when an earlier keyword link
    cannot be resolved. *)
Example scrape_unresolved_link :
  _scrape_sync_email broken_link_libs linked_world (UrlStr "http://acme.io") =
  ([HttpGet "http://acme.io" []], Ok None).
Proof. vm_compute. reflexivity. Qed.

(** ** The keyword list *)

Lemma contains_trans (a b s : string) :
  contains a b = true -> contains b s = true -> contains a s = true.
Proof.
  rewrite !contains_iff. intros (p1 & q1 & ->) (p2 & q2 & ->).
  exists (p2 +:+ p1), (q1 +:+ q2). now rewrite !append_assoc.
Qed.

(** X16. Two of the eight keywords do nothing: a text mentions one of the
    keywords exactly when it mentions one of [contact], [support], [about],
    [connect], [reach], [help], since [contact us] and [about us] contain
    [contact] and [about]. *)
Theorem any_keyword_six (s : string) :
  any_keyword s =
  existsb (fun key => contains key s)
          ["contact"; "support"; "about"; "connect"; "reach"; "help"].
Proof.
  unfold any_keyword. cbn [TARGET_KEYWORDS existsb].
  destruct (contains "contact us" s) eqn:E1.
  { now rewrite (contains_trans "contact" "contact us" s eq_refl E1). }
  destruct (contains "about us" s) eqn:E2.
  { rewrite (contains_trans "about" "about us" s eq_refl E2).
    cbn. now rewrite !orb_true_r. }
  reflexivity.
Qed.

(** ** [main] *)

(** The lookups of the batch, position by position. *)
Lemma get_urls_api_rows (U : unicode) (net : nat -> pyval -> option response)
    (company_list : list pyval) :
  exists out,
    get_urls_api U net company_list = Ok out
    /\ length out = length company_list
    /\ forall i name, company_list !! i = Some name ->
         exists u, outcome (_sync_clearbit U (net i) name) = Ok u
                   /\ out !! i = Some u.
Proof.
  unfold get_urls_api.
  destruct (gather_ok (imap (fun i name => fetch_api U (net i) name) company_list))
    as (api_results & Hg & Hall).
  { intros t Ht. apply list_elem_of_lookup in Ht as [i Hi].
    rewrite list_lookup_imap in Hi.
    destruct (company_list !! i) as [name|]; [|discriminate].
    injection Hi as <-. apply sync_clearbit_never_raises. }
  rewrite Hg. eexists. split; [reflexivity|].
  assert (Hlen : length api_results = length company_list).
  { rewrite <- (Forall2_length _ _ _ Hall). apply length_imap. }
  destruct (store_results api_results 0 (replicate (length company_list) None))
    as (H1 & _ & H3).
  { rewrite length_replicate. lia. }
  cbn zeta in H1, H3. change (imap (fun i x => (0 + i, x)) api_results)
    with (imap pair api_results) in H1, H3.
  split; [now rewrite H1, length_replicate|].
  intros i name Hi.
  destruct (Forall2_lookup_l _ _ _ i (fetch_api U (net i) name) Hall)
    as (u & Hu & Hout).
  { rewrite list_lookup_imap, Hi. reflexivity. }
  exists u. split; [exact Hout|].
  specialize (H3 i u Hu). cbn [Nat.add] in H3. rewrite H3.
  destruct (sync_clearbit_url_truthy _ _ _ _ Hout) as [-> | ->]; [|reflexivity].
  apply lookup_replicate_2. apply lookup_lt_Some in Hi. exact Hi.
Qed.

Lemma scrape_sync_email_never_raises (L : libs) (W : world)
    (website_url : url_arg) :
  outcome (_scrape_sync_email L W website_url) <> Raised.
Proof.
  unfold _scrape_sync_email. destruct (absent_url website_url); [discriminate|].
  rewrite outcome_bind, outcome_try_except.
  destruct (outcome _) as [[v|]|]; discriminate.
Qed.

(** X17. The batch never fails and keeps its rows aligned. For every list
    of names, [main] computes one row per name; row [i] carries the name
    at position [i], what the lookup of that name returned, and what the
    scrape of that URL returned. A name without a URL gets no e-mail and
    costs no site request. *)
Theorem main_rows_aligned (U : unicode) (net : nat -> pyval -> option response) (L : libs)
    (worlds : nat -> world) (names : list pyval) :
  exists rows,
    main_rows U net L worlds names = Ok rows
    /\ length rows = length names
    /\ forall i name, names !! i = Some name ->
         exists url email,
           rows !! i = Some (name, url, email)
           /\ outcome (_sync_clearbit U (net i) name) = Ok url
           /\ outcome (_scrape_sync_email L (worlds i) (website_cell url)) = Ok email
           /\ (url = None ->
               email = None
               /\ events (_scrape_sync_email L (worlds i) (website_cell url)) = []).
Proof.
  unfold main_rows.
  destruct (get_urls_api_rows U net names) as (urls & Hurls & Hlen & Hpos).
  rewrite Hurls. unfold set_column at 1. rewrite Hlen, Nat.eqb_refl.
  destruct (gather_ok
              (imap (fun i url => fst (find_email_async L (worlds i) (website_cell url)))
                    urls))
    as (emails & Hg & Hall).
  { intros t Ht. apply list_elem_of_lookup in Ht as [i Hi].
    rewrite list_lookup_imap in Hi.
    destruct (urls !! i) as [url|]; [|discriminate].
    injection Hi as <-. apply scrape_sync_email_never_raises. }
  rewrite Hg.
  assert (Hlen' : length emails = length names).
  { rewrite <- (Forall2_length _ _ _ Hall), length_imap. exact Hlen. }
  unfold set_column. rewrite Hlen', Nat.eqb_refl.
  eexists. split; [reflexivity|]. split.
  { rewrite !length_zip_with. lia. }
  intros i name Hi.
  destruct (Hpos i name Hi) as (url & Hurl & Hlookup).
  destruct (Forall2_lookup_l _ _ _ i
              (fst (find_email_async L (worlds i) (website_cell url))) Hall)
    as (email & Hemail & Hout).
  { rewrite list_lookup_imap, Hlookup. reflexivity. }
  exists url, email. split; [|split; [|split]].
  - rewrite !lookup_zip_with, Hi, Hlookup, Hemail. reflexivity.
  - exact Hurl.
  - exact Hout.
  - intros ->. split; [|reflexivity]. cbn in Hout. now injection Hout as <-.
Qed.

Lemma main_rows_aligned_witness :
  exists rows,
    main_rows sample_unicode sample_net sample_libs sample_worlds
      [PStr "Acme Corp"; PStr "Acme"; PStr "Zenith"] = Ok rows
    /\ rows !! 0 = Some (PStr "Acme Corp", Some "https://acme.io", Some "info@acme.io")
    /\ rows !! 1 = Some (PStr "Acme", None, None).
Proof.
  destruct ((main_rows_aligned sample_unicode) sample_net sample_libs sample_worlds
              [PStr "Acme Corp"; PStr "Acme"; PStr "Zenith"])
    as (rows & Hrows & _ & Hpos).
  exists rows. split; [exact Hrows|]. split.
  - destruct (Hpos 0 (PStr "Acme Corp") eq_refl) as (url & email & Hr & Hu & He & _).
    vm_compute in Hu. injection Hu as <-.
    vm_compute in He. injection He as <-. exact Hr.
  - destruct (Hpos 1 (PStr "Acme") eq_refl) as (url & email & Hr & Hu & He & _).
    vm_compute in Hu. injection Hu as <-.
    vm_compute in He. injection He as <-. exact Hr.
Defined.
